(** * Cache-Aware-Benchmark: a shallow embedding of the five benchmark programs

    The repository holds five small C++ programs (false sharing, cache-line
    alignment, AoS versus SoA, heap versus pool allocation, NUMA access).
    Each program is embedded below in a module of its own:

    - machine integers are [Z] with the two's complement wrap written out;
    - [float] is IEEE binary32, through the Standard Library's [SpecFloat];
    - object layout ([sizeof], [alignof], member offsets) follows the ABI the
      source's own comments assume ([int data[16]; // 64 bytes]);
    - library calls (allocation, clock, printing) are events of a small
      state-and-error monad [Prog], the platform's answers being a parameter;
    - the two threads of the false-sharing program are an interleaving
      semantics over byte-addressed memory. *)

From Stdlib Require Import ZArith Lia List String.
From Stdlib Require Import Floats.SpecFloat.
From stdpp Require Import base list.
Import ListNotations.
Open Scope Z_scope.

(* ===================================================================== *)
(** * Machine integers *)
(* ===================================================================== *)

(** Two's complement reduction to 32 and 64 bits ([int], [long long]) and
    reduction of a byte to [0, 256). *)
Definition wrap32 (v : Z) : Z := (v + 2147483648) mod 4294967296 - 2147483648.
Definition wrap64 (v : Z) : Z :=
  (v + 9223372036854775808) mod 18446744073709551616 - 9223372036854775808.
Definition wrap8 (v : Z) : Z := v mod 256.

Definition INT_MIN : Z := -2147483648.
Definition INT_MAX : Z := 2147483647.
Definition LLONG_MIN : Z := -9223372036854775808.
Definition LLONG_MAX : Z := 9223372036854775807.

Definition is_int (v : Z) : Prop := INT_MIN <= v <= INT_MAX.
Definition is_llong (v : Z) : Prop := LLONG_MIN <= v <= LLONG_MAX.

Lemma wrap32_small v : is_int v -> wrap32 v = v.
Proof.
  unfold is_int, INT_MIN, INT_MAX, wrap32. intros H.
  rewrite Z.mod_small by lia. lia.
Qed.

Lemma wrap64_small v : is_llong v -> wrap64 v = v.
Proof.
  unfold is_llong, LLONG_MIN, LLONG_MAX, wrap64. intros H.
  rewrite Z.mod_small by lia. lia.
Qed.

Lemma wrap64_range v : is_llong (wrap64 v).
Proof.
  unfold is_llong, LLONG_MIN, LLONG_MAX, wrap64.
  pose proof (Z.mod_pos_bound (v + 9223372036854775808) 18446744073709551616).
  lia.
Qed.

Lemma wrap64_add_l a b : wrap64 (wrap64 a + b) = wrap64 (a + b).
Proof.
  unfold wrap64. f_equal.
  replace ((a + 9223372036854775808) mod 18446744073709551616
             - 9223372036854775808 + b + 9223372036854775808)
    with ((a + 9223372036854775808) mod 18446744073709551616 + b) by lia.
  rewrite Zplus_mod_idemp_l. f_equal. lia.
Qed.

(** The sum of a list of integers, in [Z]. *)
Definition zsum (l : list Z) : Z := foldr Z.add 0 l.

Lemma zsum_app l1 l2 : zsum (l1 ++ l2) = zsum l1 + zsum l2.
Proof. unfold zsum. induction l1 as [|x l1 IH]; simpl; lia. Qed.

Lemma zsum_replicate n v : zsum (replicate n v) = Z.of_nat n * v.
Proof. unfold zsum. induction n as [|n IH]; simpl replicate; simpl foldr; lia. Qed.

Lemma zsum_bound (l : list Z) (lo hi : Z) :
  Forall (fun v => lo <= v <= hi) l ->
  Z.of_nat (length l) * lo <= zsum l <= Z.of_nat (length l) * hi.
Proof.
  unfold zsum. induction 1 as [|x l Hx Hl IH]; simpl length; simpl foldr; lia.
Qed.

(* ===================================================================== *)
(** * Counted loops *)
(* ===================================================================== *)

(** [for (size_t i = start; i < start + n; ++i) body], the body being able
    to fail ([None]: an access outside its object). *)
Fixpoint for_range {St : Type} (start n : nat) (body : nat -> St -> option St)
    (s : St) : option St :=
  match n with
  | O => Some s
  | S n' =>
      match body start s with
      | Some s' => for_range (S start) n' body s'
      | None => None
      end
  end.

Section ForRange.
Context {St : Type}.
Implicit Types (body : nat -> St -> option St) (s : St).

(** Loop invariant rule: an invariant that every iteration re-establishes
    holds after the loop, and the loop does not fail. *)
Lemma for_range_inv (P : nat -> St -> Prop) body :
  forall n start s,
    P start s ->
    (forall i t, (start <= i < start + n)%nat -> P i t ->
                 exists t', body i t = Some t' /\ P (S i) t') ->
    exists s', for_range start n body s = Some s' /\ P (start + n)%nat s'.
Proof.
  induction n as [|n IH]; intros start s HP Hstep; simpl.
  - exists s. rewrite Nat.add_0_r. auto.
  - destruct (Hstep start s ltac:(lia) HP) as (t & -> & HP').
    destruct (IH (S start) t HP') as (s' & Hrun & Hfin).
    + intros i u Hi. apply Hstep. lia.
    + exists s'. split; [exact Hrun|].
      replace (start + S n)%nat with (S start + n)%nat by lia. exact Hfin.
Qed.

(** Two bodies that agree on the range give the same loop. *)
Lemma for_range_ext body body' :
  forall n start s,
    (forall i t, (start <= i < start + n)%nat -> body i t = body' i t) ->
    for_range start n body s = for_range start n body' s.
Proof.
  induction n as [|n IH]; intros start s Heq; simpl; [reflexivity|].
  rewrite <- Heq by lia.
  destruct (body start s); [|reflexivity].
  apply IH. intros i t Hi. apply Heq. lia.
Qed.

End ForRange.

(* ===================================================================== *)
(** * Object layout *)
(* ===================================================================== *)

Module Layout.

(** The member types the five programs use. *)
Inductive ctype :=
  | Tchar | Tint | Tfloat | Tdouble
  | Tarray (elt : ctype) (n : Z).

Fixpoint sizeof (ty : ctype) : Z :=
  match ty with
  | Tchar => 1
  | Tint => 4
  | Tfloat => 4
  | Tdouble => 8
  | Tarray elt n => sizeof elt * n
  end.

Fixpoint alignof (ty : ctype) : Z :=
  match ty with
  | Tchar => 1
  | Tint => 4
  | Tfloat => 4
  | Tdouble => 8
  | Tarray elt _ => alignof elt
  end.

(** A [struct]: an optional [alignas] and the members in declaration
    order. *)
Record struct_def := {
  alignas : option Z;
  members : list (string * ctype)
}.

Definition align_up (off a : Z) : Z := (off + a - 1) / a * a.

(** Members are placed in order, each at the next multiple of its
    alignment; the result is the offsets and the end of the last member. *)
Fixpoint place (off : Z) (ms : list (string * ctype)) : list (string * Z) * Z :=
  match ms with
  | [] => ([], off)
  | (name, ty) :: rest =>
      let o := align_up off (alignof ty) in
      let r := place (o + sizeof ty) rest in
      ((name, o) :: fst r, snd r)
  end.

Definition struct_align (sd : struct_def) : Z :=
  fold_right Z.max (default 1 (alignas sd)) (map (fun m => alignof (snd m)) (members sd)).

Definition struct_size (sd : struct_def) : Z :=
  align_up (snd (place 0 (members sd))) (struct_align sd).

Fixpoint assoc (name : string) (l : list (string * Z)) : option Z :=
  match l with
  | [] => None
  | (k, v) :: rest => if String.eqb name k then Some v else assoc name rest
  end.

Definition offsetof (sd : struct_def) (name : string) : option Z :=
  assoc name (fst (place 0 (members sd))).

(** The 64-byte cache line an address falls in. *)
Definition CACHE_LINE : Z := 64.
Definition line_of (addr : Z) : Z := addr / CACHE_LINE.

End Layout.

(* ===================================================================== *)
(** * The platform and the program monad *)
(* ===================================================================== *)

(** Requests for memory the programs make, and the matching releases. *)
Inductive request :=
| ReqNewArray (bytes : Z)               (* new T[n] *)
| ReqNew (bytes : Z)                    (* new T{...} *)
| ReqVector (bytes : Z)                 (* std::vector<T>(n), resize(n) *)
| ReqMalloc (bytes : Z)                 (* std::malloc *)
| ReqAlignedAlloc (alignment bytes : Z) (* std::aligned_alloc *)
| ReqNumaAlloc (bytes node : Z).        (* numa_alloc_onnode *)

Inductive release :=
| RelDeleteArray                        (* delete[] *)
| RelDelete                             (* delete *)
| RelVector                             (* ~vector *)
| RelFree                               (* std::free *)
| RelNumaFree (bytes : Z).              (* numa_free *)

Inductive value :=
| VInt (v : Z)
| VFloat (f : spec_float).

(** What a program does to the outside, in program order. *)
Inductive event :=
| EvAlloc (r : request) (p : Z)         (* a request and the pointer it got; 0 is null *)
| EvRelease (r : release) (p : Z)
| EvMemset (p val bytes : Z)
| EvClock (t : Z)                       (* high_resolution_clock::now() *)
| EvConstruct (p : Z)                   (* placement new at p *)
| EvDestroy (p : Z)                     (* explicit destructor call on the object at p *)
| EvPattern (label : string)            (* the loop nest of an access pattern *)
| EvRunOnNode (node : Z)                (* numa_run_on_node *)
| EvOut (text : string) (vals : list value)   (* std::cout *)
| EvErr (text : string).                (* std::cerr *)

(** The answers of the platform: the pointer each allocation request gets
    (0: the request is denied), the clock readings in nanoseconds, the
    result of [numa_available] and the bytes a fresh region holds. *)
Record platform := {
  allocate : request -> nat -> Z;
  clock_now : nat -> Z;
  numa_available : Z;
  fresh_byte : Z -> Z
}.

Record world := {
  trace : list event;
  clock_reads : nat;
  alloc_calls : nat
}.

Definition world0 : world := {| trace := []; clock_reads := 0; alloc_calls := 0 |}.

(** How a computation ends: it returns, an uncaught [std::bad_alloc] reaches
    [std::terminate], an [assert] fails, or an access outside any object
    (a null dereference) faults. *)
Inductive outcome (A : Type) :=
| Done (a : A)
| BadAlloc
| AssertFailed (msg : string)
| Fault.
Arguments Done {A} a.
Arguments BadAlloc {A}.
Arguments AssertFailed {A} msg.
Arguments Fault {A}.

Definition Prog (A : Type) : Type := platform -> world -> outcome A * world.

#[export] Instance prog_ret : MRet Prog := fun A a _ w => (Done a, w).

#[export] Instance prog_bind : MBind Prog := fun A B k c pf w =>
  match c pf w with
  | (Done a, w') => k a pf w'
  | (BadAlloc, w') => (BadAlloc, w')
  | (AssertFailed msg, w') => (AssertFailed msg, w')
  | (Fault, w') => (Fault, w')
  end.

Definition emit (e : event) : Prog unit := fun _ w =>
  (Done tt, {| trace := trace w ++ [e];
               clock_reads := clock_reads w; alloc_calls := alloc_calls w |}).

Definition now : Prog Z := fun pf w =>
  let t := clock_now pf (clock_reads w) in
  (Done t, {| trace := trace w ++ [EvClock t];
              clock_reads := S (clock_reads w); alloc_calls := alloc_calls w |}).

(** An allocation primitive that reports failure by a null pointer. *)
Definition alloc (r : request) : Prog Z := fun pf w =>
  let p := allocate pf r (alloc_calls w) in
  (Done p, {| trace := trace w ++ [EvAlloc r p];
              clock_reads := clock_reads w; alloc_calls := S (alloc_calls w) |}).

Definition raise {A} (o : outcome A) : Prog A := fun _ w => (o, w).

(** [operator new] and [std::vector]: failure is a thrown [std::bad_alloc]. *)
Definition alloc_or_throw (r : request) : Prog Z :=
  p ← alloc r;
  if Z.eqb p 0 then raise BadAlloc else mret p.

Definition assert (b : bool) (msg : string) : Prog unit :=
  if b then mret tt else raise (AssertFailed msg).

(** The measured loop nest of an access pattern; [None] is an access
    outside the array. *)
Definition pattern {A} (label : string) (r : option A) : Prog A :=
  emit (EvPattern label);;
  match r with
  | Some a => mret a
  | None => raise Fault
  end.

Definition get_platform {A} (f : platform -> A) : Prog A := fun pf w => (Done (f pf), w).

(** [duration_cast<milliseconds>] of a nanosecond tick count: truncation. *)
Definition duration_ms (ticks : Z) : Z := Z.quot ticks 1000000.

(** A [std::vector] holds at least [PTRDIFF_MAX] bytes of elements before
    it refuses to grow by [std::length_error]; the vectors below are
    modelled within that bound. *)
Definition PTRDIFF_MAX : Z := 9223372036854775807.

(** [for (size_t i = start; i < start + n; ++i) body] with effects. *)
Fixpoint for_each (start n : nat) (body : nat -> Prog unit) : Prog unit :=
  match n with
  | O => mret tt
  | S n' => body start;; for_each (S start) n' body
  end.

(** The same loop, threading a value through the iterations. *)
Fixpoint for_fold {St : Type} (start n : nat) (body : nat -> St -> Prog St) (s : St)
    : Prog St :=
  match n with
  | O => mret s
  | S n' => s' ← body start s; for_fold (S start) n' body s'
  end.

(** [for (auto t : l) body]. *)
Fixpoint for_list {A : Type} (l : list A) (body : A -> Prog unit) : Prog unit :=
  match l with
  | [] => mret tt
  | a :: rest => body a;; for_list rest body
  end.

Definition run {A} (c : Prog A) (pf : platform) : outcome A * list event :=
  let r := c pf world0 in (fst r, trace (snd r)).

(** ** Reading a trace *)

Definition is_acquire (e : event) : bool :=
  match e with EvAlloc _ _ => true | _ => false end.
Definition is_release (e : event) : bool :=
  match e with EvRelease _ _ => true | _ => false end.
Definition is_clock (e : event) : bool :=
  match e with EvClock _ => true | _ => false end.

(** Scans a trace with the stopwatch state ([timing]: a first reading has
    been taken and the second has not): [false] as soon as a block is
    acquired or released while the stopwatch runs. *)
Fixpoint untimed_from (timing : bool) (tr : list event) : bool :=
  match tr with
  | [] => true
  | e :: rest =>
      if is_clock e then untimed_from (negb timing) rest
      else if (is_acquire e || is_release e) && timing then false
      else untimed_from timing rest
  end.

(** Every acquisition and release of the trace is outside the timed
    intervals. *)
Definition acquire_release_untimed (tr : list event) : bool := untimed_from false tr.

(** The pointer the sample platforms below give to the [k]-th request: a
    multiple of the alignment asked for, of 64 otherwise. *)
Definition sample_pointer (r : request) (k : nat) : Z :=
  match r with
  | ReqAlignedAlloc al _ => al * (64 * (Z.of_nat k + 1))
  | _ => 4096 * (Z.of_nat k + 1)
  end.

(** A platform that grants every request and whose clock advances 3 ms per
    reading. *)
Definition generous : platform := {|
  allocate := sample_pointer;
  clock_now := fun k => 3000000 * Z.of_nat k;
  numa_available := 0;
  fresh_byte := fun _ => 0
|}.

(** The same platform, except that the [k]-th request is denied. *)
Definition denying (k : nat) : platform := {|
  allocate := fun r j => if Nat.eqb j k then 0 else sample_pointer r j;
  clock_now := fun j => 3000000 * Z.of_nat j;
  numa_available := 0;
  fresh_byte := fun _ => 0
|}.


(** ** Programs only ever extend the trace *)

Definition appends {A} (c : Prog A) : Prop :=
  forall pf w, exists tr, trace (snd (c pf w)) = trace w ++ tr.

Lemma appends_ret {A} (a : A) : appends (mret a).
Proof. intros pf w. exists []. simpl. now rewrite app_nil_r. Qed.

Lemma appends_raise {A} (o : outcome A) : appends (raise o).
Proof. intros pf w. exists []. simpl. now rewrite app_nil_r. Qed.

Lemma appends_emit e : appends (emit e).
Proof. intros pf w. now exists [e]. Qed.

Lemma appends_now : appends now.
Proof. intros pf w. now eexists [_]. Qed.

Lemma appends_alloc r : appends (alloc r).
Proof. intros pf w. now eexists [_]. Qed.

Lemma appends_bind {A B} (c : Prog A) (k : A -> Prog B) :
  appends c -> (forall a, appends (k a)) -> appends (c ≫= k).
Proof.
  intros Hc Hk pf w. destruct (Hc pf w) as [tr1 H1].
  unfold mbind, prog_bind. destruct (c pf w) as [[a| |msg|] w1]; simpl in *;
    try (now exists tr1).
  destruct (Hk a pf w1) as [tr2 H2]. exists (tr1 ++ tr2).
  now rewrite H2, H1, app_assoc.
Qed.

Lemma appends_for_fold {St} (body : nat -> St -> Prog St) n :
  (forall i s, appends (body i s)) -> forall start s, appends (for_fold start n body s).
Proof.
  intros Hbody. induction n as [|n IH]; intros start s; simpl.
  - apply appends_ret.
  - apply appends_bind; [apply Hbody | intros s'; apply IH].
Qed.

Lemma appends_for_list {A} (body : A -> Prog unit) l :
  (forall a, appends (body a)) -> appends (for_list l body).
Proof.
  intros Hbody. induction l as [|a l IH]; simpl.
  - apply appends_ret.
  - apply appends_bind; [apply Hbody | intros _; apply IH].
Qed.

Lemma appends_if {A} (b : bool) (c1 c2 : Prog A) :
  appends c1 -> appends c2 -> appends (if b then c1 else c2).
Proof. now destruct b. Qed.

Create HintDb appends.
#[export] Hint Resolve appends_ret appends_raise appends_emit appends_now appends_alloc
  appends_bind appends_for_fold appends_for_list appends_if : appends.


(** A loop whose body emits one event per iteration emits them in order. *)
Lemma for_each_emits (body : nat -> Prog unit) (f : nat -> event) n :
  (forall i pf w, body i pf w = emit (f i) pf w) ->
  forall start pf w,
    for_each start n body pf w
    = (Done tt, {| trace := trace w ++ map f (seq start n);
                   clock_reads := clock_reads w; alloc_calls := alloc_calls w |}).
Proof.
  intros Hbody. induction n as [|n IH]; intros start pf w; simpl.
  - rewrite app_nil_r. now destruct w.
  - unfold mbind, prog_bind. rewrite Hbody. unfold emit at 1. rewrite IH. simpl.
    now rewrite <- app_assoc.
Qed.

(** As soon as a block is acquired while the stopwatch runs, the rest of
    the trace does not matter. *)
Lemma timed_acquire_prefix t r p rest :
  acquire_release_untimed (EvClock t :: EvAlloc r p :: rest) = false.
Proof. reflexivity. Qed.

(** ** More on counted loops and traces *)

(** A loop of [a + b] iterations is the loop of the first [a] followed by
    the loop of the last [b]. *)
Lemma for_range_app {St : Type} (body : nat -> St -> option St) a b :
  forall start s,
    for_range start (a + b) body s
    = match for_range start a body s with
      | Some s' => for_range (start + a) b body s'
      | None => None
      end.
Proof.
  induction a as [|a IH]; intros start s; simpl.
  - now rewrite Nat.add_0_r.
  - destruct (body start s) as [s'|]; [|reflexivity].
    rewrite IH. now replace (S start + a)%nat with (start + S a)%nat by lia.
Qed.

(** A loop that folds the elements [l[0]], ..., [l[n-1]] into its state:
    a left fold over the first [n] elements. *)
Lemma for_range_fold {A St : Type} (l : list A) (f : St -> A -> St) n s :
  (n <= length l)%nat ->
  for_range 0 n (fun i t => a ← l !! i; Some (f t a)) s = Some (fold_left f (take n l) s).
Proof.
  intros Hn.
  destruct (for_range_inv (fun i t => t = fold_left f (take i l) s)
              (fun i t => a ← l !! i; Some (f t a)) n 0 s eq_refl) as (t & -> & ->);
    [|reflexivity].
  intros i t Hi ->.
  destruct (lookup_lt_is_Some_2 l i) as [a Ha]; [lia|].
  rewrite Ha. simpl. eexists. split; [reflexivity|].
  rewrite (take_S_r _ _ _ Ha), fold_left_app. reflexivity.
Qed.

(** The same loop asked for more elements than the list has reads past
    its end. *)
Lemma for_range_past_end {A St : Type} (l : list A) (f : St -> A -> St) n s :
  (length l < n)%nat ->
  for_range 0 n (fun i t => a ← l !! i; Some (f t a)) s = None.
Proof.
  intros Hn. replace n with (length l + S (n - S (length l)))%nat by lia.
  rewrite for_range_app, (for_range_fold l f (length l) s) by lia.
  simpl. now rewrite (lookup_ge_None_2 l (length l)) by lia.
Qed.

(** Running a bind: the first program, then the continuation on its
    result, a failure ending the run. *)
Lemma bind_unfold {A B} (c : Prog A) (k : A -> Prog B) pf w :
  (c ≫= k) pf w
  = match c pf w with
    | (Done a, w') => k a pf w'
    | (BadAlloc, w') => (BadAlloc, w')
    | (AssertFailed msg, w') => (AssertFailed msg, w')
    | (Fault, w') => (Fault, w')
    end.
Proof. reflexivity. Qed.

(** The blocks a trace acquires, and the blocks it releases, in order. *)
Fixpoint acquisitions (tr : list event) : list (request * Z) :=
  match tr with
  | [] => []
  | EvAlloc r p :: rest => (r, p) :: acquisitions rest
  | _ :: rest => acquisitions rest
  end.

Fixpoint releases (tr : list event) : list (release * Z) :=
  match tr with
  | [] => []
  | EvRelease r p :: rest => (r, p) :: releases rest
  | _ :: rest => releases rest
  end.


Lemma acquisitions_app tr1 tr2 : acquisitions (tr1 ++ tr2) = acquisitions tr1 ++ acquisitions tr2.
Proof. induction tr1 as [|[] tr1 IH]; simpl; congruence. Qed.

Lemma releases_app tr1 tr2 : releases (tr1 ++ tr2) = releases tr1 ++ releases tr2.
Proof. induction tr1 as [|[] tr1 IH]; simpl; congruence. Qed.

(* ===================================================================== *)
(** * cache_alignment/cache_alignment.cpp *)
(* ===================================================================== *)

Module CacheAlignment.
Import Layout.

Definition NUM_STRUCTS : Z := 1000000.
Definition NUM_ITERATIONS : nat := 100.
Definition CACHE_LINE_SIZE : Z := 64.

(** [struct UnalignedStruct { int data[16]; };] *)
Definition UnalignedStruct_def : struct_def :=
  {| alignas := None; members := [("data"%string, Tarray Tint 16)] |}.

(** [struct alignas(CACHE_LINE_SIZE) AlignedStruct { int data[16]; };] *)
Definition AlignedStruct_def : struct_def :=
  {| alignas := Some CACHE_LINE_SIZE; members := [("data"%string, Tarray Tint 16)] |}.

Record UnalignedStruct := { u_data : list Z }.
Record AlignedStruct := { a_data : list Z }.

(** What the template [benchmarkAccess<T>] asks of [T]: a member [data]
    and the size of an element. *)
Class Element (T : Type) := {
  data : T -> list Z;
  elem_size : Z
}.

#[export] Instance unaligned_element : Element UnalignedStruct :=
  {| data := u_data; elem_size := struct_size UnalignedStruct_def |}.
#[export] Instance aligned_element : Element AlignedStruct :=
  {| data := a_data; elem_size := struct_size AlignedStruct_def |}.

(** An element as the type system has it: 16 [int]s. *)
Definition well_typed {T} `{Element T} (s : T) : Prop :=
  length (data s) = 16%nat /\ Forall is_int (data s).

(** [sum += arr[i].data[j];] on the [volatile long long sum]. *)
Definition read_add {T} `{Element T} (arr : list T) (i j : nat) (sum : Z) : option Z :=
  s ← arr !! i;
  v ← data s !! j;
  Some (wrap64 (sum + v)).

(** The three nested loops of [benchmarkAccess], from [sum]. *)
Definition scan {T} `{Element T} (arr : list T) (count : nat) (sum : Z) : option Z :=
  for_range 0 NUM_ITERATIONS (fun _ =>
    for_range 0 count (fun i =>
      for_range 0 16 (fun j => read_add arr i j))) sum.

(** [benchmarkAccess]: the value returned is [duration]; [sum] is
    printed. *)
Definition benchmarkAccess {T} `{Element T} (arr : list T) (count : Z)
    (label : string) : Prog Z :=
  start ← now;
  sum ← pattern label (scan arr (Z.to_nat count) 0);
  end_ ← now;
  let duration := duration_ms (end_ - start) in
  emit (EvOut label [VInt duration; VInt sum]);;
  mret duration.

(** The address of [arr[i]]. *)
Definition elem_addr {T} `{Element T} (base : Z) (i : Z) : Z :=
  base + i * @elem_size T _.

Definition zeroU : UnalignedStruct := {| u_data := replicate 16 0 |}.
Definition zeroA : AlignedStruct := {| a_data := replicate 16 0 |}.

(** [main], for [num_structs] elements. After the two [memset]s every field
    of every element is 0, which is what the two scans are given. *)
Definition main_with (num_structs : Z) : Prog Z :=
  emit (EvOut "🔍 Testing cache line alignment impact..." []);;
  unalignedArr ← alloc_or_throw (ReqNewArray (struct_size UnalignedStruct_def * num_structs));
  emit (EvMemset unalignedArr 0 (struct_size UnalignedStruct_def * num_structs));;
  rawPtr ← alloc (ReqAlignedAlloc CACHE_LINE_SIZE (struct_size AlignedStruct_def * num_structs));
  assert (negb (Z.eqb rawPtr 0)) "aligned_alloc failed";;
  let alignedArr := rawPtr in
  emit (EvMemset alignedArr 0 (struct_size AlignedStruct_def * num_structs));;
  unalignedTime ← benchmarkAccess (replicate (Z.to_nat num_structs) zeroU) num_structs
                    "❌ Unaligned access";
  alignedTime ← benchmarkAccess (replicate (Z.to_nat num_structs) zeroA) num_structs
                    "✅ Aligned access";
  emit (EvRelease RelDeleteArray unalignedArr);;
  emit (EvRelease RelFree alignedArr);;
  mret 0.

Definition main : Prog Z := main_with NUM_STRUCTS.

(** The mathematical sum of all fields of all elements. *)
Definition total {T} `{Element T} (arr : list T) : Z :=
  zsum (map (fun s => zsum (data s)) arr).

(** ** The scan computes the wrapped sum *)

Section Scan.
Context {T : Type} `{Element T}.
Implicit Types (arr : list T) (sum : Z).

Lemma total_app arr1 arr2 : total (arr1 ++ arr2) = total arr1 + total arr2.
Proof. unfold total. rewrite map_app. apply zsum_app. Qed.

Lemma total_replicate n (s : T) : total (replicate n s) = Z.of_nat n * zsum (data s).
Proof.
  unfold total. induction n as [|n IH]; [reflexivity|].
  simpl replicate. simpl map. change (zsum (?x :: ?l)) with (x + zsum l).
  rewrite IH. lia.
Qed.

(** The innermost loop, over the 16 fields of element [i]. *)
Lemma scan_fields arr i (s : T) sum :
  arr !! i = Some s -> length (data s) = 16%nat -> is_llong sum ->
  for_range 0 16 (fun j => read_add arr i j) sum = Some (wrap64 (sum + zsum (data s))).
Proof.
  intros Hi Hlen Hsum.
  destruct (for_range_inv
              (fun j t => t = wrap64 (sum + zsum (take j (data s))))
              (fun j => read_add arr i j) 16 0 sum) as (t & -> & Ht).
  - simpl. rewrite wrap64_small; [lia | replace (sum + 0) with sum by lia; exact Hsum].
  - intros j t Hj ->.
    destruct (lookup_lt_is_Some_2 (data s) j) as [v Hv]; [lia|].
    exists (wrap64 (sum + zsum (take j (data s)) + v)). split.
    + unfold read_add. rewrite Hi. simpl. rewrite Hv. simpl.
      now rewrite wrap64_add_l.
    + rewrite (take_S_r _ _ _ Hv), zsum_app. f_equal. unfold zsum. simpl. lia.
  - rewrite Ht. f_equal. f_equal.
    rewrite firstn_all2; [reflexivity | simpl; lia].
Qed.

(** The middle loop, over the first [count] elements. *)
Lemma scan_elements arr count sum :
  (count <= length arr)%nat -> Forall (fun s => length (data s) = 16%nat) arr ->
  is_llong sum ->
  for_range 0 count (fun i => for_range 0 16 (fun j => read_add arr i j)) sum
  = Some (wrap64 (sum + total (take count arr))).
Proof.
  intros Hcount Hwt Hsum.
  destruct (for_range_inv
              (fun i t => t = wrap64 (sum + total (take i arr)))
              (fun i => for_range 0 16 (fun j => read_add arr i j)) count 0 sum)
    as (t & -> & Ht).
  - simpl. unfold total, zsum. simpl. rewrite wrap64_small; [lia|].
    replace (sum + 0) with sum by lia. exact Hsum.
  - intros i t Hi ->.
    destruct (lookup_lt_is_Some_2 arr i) as [s Hs]; [lia|].
    eexists. split.
    + apply scan_fields; [exact Hs | | apply wrap64_range].
      rewrite Forall_forall in Hwt. apply Hwt.
      eapply list_elem_of_lookup_2. exact Hs.
    + rewrite wrap64_add_l. rewrite (take_S_r _ _ _ Hs), total_app. f_equal.
      replace (total [s]) with (zsum (data s) + 0) by reflexivity. lia.
  - rewrite Ht. reflexivity.
Qed.

(** The whole loop nest: [NUM_ITERATIONS] passes over the array. *)
Lemma scan_value arr count sum :
  length arr = count -> Forall (fun s => length (data s) = 16%nat) arr ->
  is_llong sum ->
  scan arr count sum = Some (wrap64 (sum + Z.of_nat NUM_ITERATIONS * total arr)).
Proof.
  intros Hcount Hwt Hsum. unfold scan.
  destruct (for_range_inv
              (fun k t => t = wrap64 (sum + Z.of_nat k * total arr))
              (fun _ => for_range 0 count
                          (fun i => for_range 0 16 (fun j => read_add arr i j)))
              NUM_ITERATIONS 0 sum) as (t & -> & Ht).
  - replace (sum + Z.of_nat 0 * total arr) with sum by lia.
    now rewrite wrap64_small.
  - intros k t Hk ->. eexists. split.
    + apply scan_elements; [lia | exact Hwt | apply wrap64_range].
    + rewrite wrap64_add_l. f_equal.
      rewrite firstn_all2 by lia. lia.
  - rewrite Ht. reflexivity.
Qed.

End Scan.

Lemma scan_zeroU n : scan (replicate n zeroU) n 0 = Some 0.
Proof.
  rewrite scan_value.
  - rewrite total_replicate. reflexivity || (f_equal; simpl; rewrite Z.mul_0_r; reflexivity).
  - apply length_replicate.
  - apply Forall_replicate. reflexivity.
  - unfold is_llong, LLONG_MIN, LLONG_MAX. lia.
Qed.

Lemma scan_zeroA n : scan (replicate n zeroA) n 0 = Some 0.
Proof.
  rewrite scan_value.
  - rewrite total_replicate. reflexivity || (f_equal; simpl; rewrite Z.mul_0_r; reflexivity).
  - apply length_replicate.
  - apply Forall_replicate. reflexivity.
  - unfold is_llong, LLONG_MIN, LLONG_MAX. lia.
Qed.

(** ** What a call of [benchmarkAccess] does *)

Lemma benchmarkAccess_run {T} `{Element T} (arr : list T) count label s pf w :
  scan arr (Z.to_nat count) 0 = Some s ->
  benchmarkAccess arr count label pf w =
    let t0 := clock_now pf (clock_reads w) in
    let t1 := clock_now pf (S (clock_reads w)) in
    let d := duration_ms (t1 - t0) in
    (Done d,
     {| trace := trace w ++ [EvClock t0; EvPattern label; EvClock t1;
                             EvOut label [VInt d; VInt s]];
        clock_reads := S (S (clock_reads w));
        alloc_calls := alloc_calls w |}).
Proof.
  intros Hscan.
  unfold benchmarkAccess, pattern, now, emit, mbind, prog_bind, mret, prog_ret, raise.
  rewrite Hscan. simpl. rewrite <- !app_assoc. reflexivity.
Qed.

(** The three ways [main] can end, with the trace of each. *)
Lemma main_with_run pf n :
  let su := struct_size UnalignedStruct_def * n in
  let sa := struct_size AlignedStruct_def * n in
  let p1 := allocate pf (ReqNewArray su) 0 in
  let p2 := allocate pf (ReqAlignedAlloc CACHE_LINE_SIZE sa) 1 in
  let d1 := duration_ms (clock_now pf 1 - clock_now pf 0) in
  let d2 := duration_ms (clock_now pf 3 - clock_now pf 2) in
  let hello := EvOut "🔍 Testing cache line alignment impact..." [] in
  run (main_with n) pf =
    if Z.eqb p1 0 then (BadAlloc, [hello; EvAlloc (ReqNewArray su) p1])
    else if Z.eqb p2 0 then
      (AssertFailed "aligned_alloc failed",
       [hello; EvAlloc (ReqNewArray su) p1; EvMemset p1 0 su;
        EvAlloc (ReqAlignedAlloc CACHE_LINE_SIZE sa) p2])
    else
      (Done 0,
       [hello; EvAlloc (ReqNewArray su) p1; EvMemset p1 0 su;
        EvAlloc (ReqAlignedAlloc CACHE_LINE_SIZE sa) p2; EvMemset p2 0 sa;
        EvClock (clock_now pf 0); EvPattern "❌ Unaligned access";
        EvClock (clock_now pf 1); EvOut "❌ Unaligned access" [VInt d1; VInt 0];
        EvClock (clock_now pf 2); EvPattern "✅ Aligned access";
        EvClock (clock_now pf 3); EvOut "✅ Aligned access" [VInt d2; VInt 0];
        EvRelease RelDeleteArray p1; EvRelease RelFree p2]).
Proof.
  intros su sa p1 p2 d1 d2 hello.
  unfold run, main_with, alloc_or_throw, assert.
  cbv [mbind prog_bind mret prog_ret emit alloc raise world0
       trace clock_reads alloc_calls app].
  fold su sa. fold p1. destruct (Z.eqb p1 0) eqn:E1; [reflexivity|].
  cbv [negb]. cbv beta iota. fold p2. destruct (Z.eqb p2 0) eqn:E2; [reflexivity|].
  rewrite (benchmarkAccess_run _ _ _ 0) by apply scan_zeroU.
  cbv beta iota zeta. cbv [trace clock_reads alloc_calls].
  rewrite (benchmarkAccess_run _ _ _ 0) by apply scan_zeroA.
  cbv beta iota zeta. cbv [trace clock_reads alloc_calls fst snd].
  rewrite <- !app_assoc. reflexivity.
Qed.

(** ** Extensional equality of the two instances of the scan *)

Lemma total_data_eq (arrU : list UnalignedStruct) (arrA : list AlignedStruct) :
  map data arrU = map data arrA -> total arrU = total arrA.
Proof.
  intros Heq. unfold total.
  rewrite <- (map_map data zsum arrU), <- (map_map data zsum arrA).
  now rewrite Heq.
Qed.

Lemma total_bound {T} `{Element T} (arr : list T) :
  Forall well_typed arr ->
  Z.of_nat (length arr) * (16 * INT_MIN) <= total arr <= Z.of_nat (length arr) * (16 * INT_MAX).
Proof.
  unfold total. induction 1 as [|s arr [Hlen Hint] Hrest IH].
  - simpl. unfold zsum. simpl. lia.
  - simpl map. change (zsum (?x :: ?l)) with (x + zsum l).
    pose proof (zsum_bound (data s) INT_MIN INT_MAX Hint) as Hs.
    rewrite Hlen in Hs. simpl length. lia.
Qed.

Definition maxU : UnalignedStruct := {| u_data := replicate 16 INT_MAX |}.
Definition maxA : AlignedStruct := {| a_data := replicate 16 INT_MAX |}.

Lemma well_typed_lengths {T} `{Element T} (arr : list T) :
  Forall well_typed arr -> Forall (fun s => length (data s) = 16%nat) arr.
Proof. intros Hwt. eapply Forall_impl; [exact Hwt|]. now intros s [Hlen _]. Qed.

(** C9, as stated, fails: on 3,000,000 elements whose fields all hold
    [INT_MAX] the two scans agree, but the accumulator is not
    [NUM_ITERATIONS] times the sum of the fields: that product is above
    [LLONG_MAX], and the [long long] accumulator holds its reduction. *)
Lemma scan_product_overflows :
  length (replicate (Z.to_nat 3000000) maxU) = Z.to_nat 3000000 /\
  length (replicate (Z.to_nat 3000000) maxA) = Z.to_nat 3000000 /\
  map data (replicate (Z.to_nat 3000000) maxU) = map data (replicate (Z.to_nat 3000000) maxA) /\
  Forall well_typed (replicate (Z.to_nat 3000000) maxU) /\
  Forall well_typed (replicate (Z.to_nat 3000000) maxA) /\
  scan (replicate (Z.to_nat 3000000) maxU) (Z.to_nat 3000000) 0
    = Some (-8138822568109551616) /\
  Z.of_nat NUM_ITERATIONS * total (replicate (Z.to_nat 3000000) maxU)
    = 10307921505600000000 /\
  scan (replicate (Z.to_nat 3000000) maxU) (Z.to_nat 3000000) 0
    <> Some (Z.of_nat NUM_ITERATIONS * total (replicate (Z.to_nat 3000000) maxU)).
Proof.
  generalize (Z2Nat.id 3000000 ltac:(lia)).
  generalize (Z.to_nat 3000000). intros n Hn.
  assert (Hwu : well_typed maxU).
  { split; [reflexivity|]. apply Forall_replicate. unfold is_int, INT_MIN, INT_MAX. lia. }
  assert (Hwa : well_typed maxA).
  { split; [reflexivity|]. apply Forall_replicate. unfold is_int, INT_MIN, INT_MAX. lia. }
  assert (Htot : Z.of_nat NUM_ITERATIONS * total (replicate n maxU) = 10307921505600000000).
  { rewrite total_replicate, Hn. reflexivity. }
  assert (Hscan : scan (replicate n maxU) n 0 = Some (-8138822568109551616)).
  { rewrite scan_value.
    - rewrite Z.add_0_l, Htot. reflexivity.
    - apply length_replicate.
    - apply Forall_replicate. reflexivity.
    - unfold is_llong, LLONG_MIN, LLONG_MAX. lia. }
  refine (conj _ (conj _ (conj _ (conj _ (conj _ (conj Hscan (conj Htot _))))))).
  - apply length_replicate.
  - apply length_replicate.
  - clear. induction n as [|n IH]; [reflexivity|].
    change (data maxU :: map data (replicate n maxU)
            = data maxA :: map data (replicate n maxA)).
    now rewrite IH.
  - now apply Forall_replicate.
  - now apply Forall_replicate.
  - rewrite Hscan, Htot. discriminate.
Qed.

(** C9, amended: on arrays of the same count with element-wise identical
    fields, [benchmarkAccess<UnalignedStruct>] and
    [benchmarkAccess<AlignedStruct>] compute the same accumulator, the 64-bit
    reduction of [NUM_ITERATIONS] times the sum of all fields; for the counts
    up to [NUM_STRUCTS] that is the product itself, and it is 0 on the
    zero-initialised arrays of [main]. *)
Theorem scan_layout_independent
    (arrU : list UnalignedStruct) (arrA : list AlignedStruct) (count : nat) :
  length arrU = count -> length arrA = count ->
  map data arrU = map data arrA ->
  Forall well_typed arrU ->
  scan arrU count 0 = scan arrA count 0 /\
  scan arrU count 0 = Some (wrap64 (Z.of_nat NUM_ITERATIONS * total arrU)) /\
  (Z.of_nat count <= NUM_STRUCTS ->
   scan arrU count 0 = Some (Z.of_nat NUM_ITERATIONS * total arrU)) /\
  scan (replicate count zeroU) count 0 = Some 0 /\
  scan (replicate count zeroA) count 0 = Some 0.
Proof.
  intros HlenU HlenA Hdata HwtU.
  assert (HwtA : Forall (fun s : AlignedStruct => length (data s) = 16%nat) arrA).
  { apply well_typed_lengths in HwtU.
    rewrite Forall_forall in HwtU. rewrite Forall_forall. intros a Ha.
    apply list_elem_of_lookup in Ha as [i Hi].
    assert (Hm : map data arrA !! i = Some (data a)).
    { change (map data arrA) with (data <$> arrA). rewrite list_lookup_fmap, Hi. reflexivity. }
    rewrite <- Hdata in Hm.
    change (map data arrU) with (data <$> arrU) in Hm.
    rewrite list_lookup_fmap in Hm.
    destruct (arrU !! i) as [u|] eqn:Hu; [|discriminate].
    assert (Hd : data u = data a) by (injection Hm; auto).
    rewrite <- Hd.
    apply HwtU. eapply list_elem_of_lookup_2. exact Hu. }
  assert (Hz : is_llong 0) by (unfold is_llong, LLONG_MIN, LLONG_MAX; lia).
  pose proof (scan_value arrU count 0 HlenU (well_typed_lengths _ HwtU) Hz) as HU.
  pose proof (scan_value arrA count 0 HlenA HwtA Hz) as HA.
  rewrite Z.add_0_l in HU, HA.
  rewrite <- (total_data_eq arrU arrA Hdata) in HA.
  refine (conj _ (conj HU (conj _ (conj (scan_zeroU count) (scan_zeroA count))))).
  - now rewrite HU, HA.
  - intros Hcount. rewrite HU. f_equal. apply wrap64_small.
    pose proof (total_bound arrU HwtU) as Hb. rewrite HlenU in Hb.
    unfold is_llong, LLONG_MIN, LLONG_MAX, NUM_ITERATIONS, NUM_STRUCTS,
      INT_MIN, INT_MAX in *. lia.
Qed.

Lemma scan_layout_independent_witness :
  scan [ {| u_data := [1;2;3;4;5;6;7;8;9;10;11;12;13;14;15;-16] |}; zeroU ] 2 0
  = Some 10400.
Proof.
  destruct (scan_layout_independent
              [ {| u_data := [1;2;3;4;5;6;7;8;9;10;11;12;13;14;15;-16] |}; zeroU ]
              [ {| a_data := [1;2;3;4;5;6;7;8;9;10;11;12;13;14;15;-16] |}; zeroA ]
              2 eq_refl eq_refl eq_refl) as (_ & _ & Hexact & _).
  - repeat constructor; unfold INT_MIN, INT_MAX; lia.
  - rewrite Hexact; [reflexivity | unfold NUM_STRUCTS; lia].
Defined.

(** ** Alignment of the aligned array *)

(** The contract of [std::aligned_alloc]: the pointer returned is a
    multiple of the alignment asked for (the null pointer, 0, included). *)
Definition aligned_alloc_contract (pf : platform) : Prop :=
  forall al sz k, 0 < al -> allocate pf (ReqAlignedAlloc al sz) k mod al = 0.

(** On a platform whose [aligned_alloc] honours that contract, the aligned
    array of [main] and each of its elements start at a multiple of 64. *)
Lemma elements_under_contract pf n out tr :
  aligned_alloc_contract pf ->
  run (main_with n) pf = (out, tr) ->
  forall al sz p, In (EvAlloc (ReqAlignedAlloc al sz) p) tr -> p <> 0 ->
    al = CACHE_LINE_SIZE /\ sz = 64 * n /\
    p = allocate pf (ReqAlignedAlloc CACHE_LINE_SIZE (64 * n)) 1 /\
    p mod al = 0 /\
    @elem_size AlignedStruct _ = 64 /\
    forall i, 0 <= i < n -> @elem_addr AlignedStruct _ p i mod 64 = 0.
Proof.
  intros Hcontract Hrun al sz p Hin Hp.
  assert (Hev : al = CACHE_LINE_SIZE /\ sz = 64 * n /\
                p = allocate pf (ReqAlignedAlloc CACHE_LINE_SIZE (64 * n)) 1).
  { rewrite main_with_run in Hrun. cbv zeta in Hrun.
    change (struct_size AlignedStruct_def) with 64 in Hrun.
    destruct (Z.eqb _ 0) in Hrun; [|destruct (Z.eqb _ 0) in Hrun];
      injection Hrun as _ <-; simpl in Hin;
      repeat (destruct Hin as [Hin|Hin]; [try discriminate Hin|]);
      try contradiction; injection Hin as <- <- <-; auto. }
  destruct Hev as (-> & -> & ->).
  pose proof (Hcontract CACHE_LINE_SIZE (64 * n) 1%nat ltac:(unfold CACHE_LINE_SIZE; lia)) as Hmod.
  refine (conj eq_refl (conj eq_refl (conj eq_refl (conj Hmod (conj eq_refl _))))).
  intros i _. unfold elem_addr. change (@elem_size AlignedStruct _) with 64.
  unfold CACHE_LINE_SIZE in *.
  rewrite Z.add_mod, Hmod, Z_mod_mult by lia. reflexivity.
Qed.

(** Modelled from the spec: the alignment-aware allocation primitive of the
    aligned strategy, [std::aligned_alloc] of the C library, which is not
    in the repository. The spec has it fail when "the requested alignment
    is not a power of two or the platform denies the request"; the platform
    grants a request when the block fits in its free store [[brk, limit)]
    placed at the first multiple of the alignment, which is then the
    address returned. The null pointer is 0. *)
Definition is_power_of_two (a : Z) : bool :=
  Z.ltb 0 a && Z.eqb (Z.land a (a - 1)) 0.

Definition aligned_alloc (brk limit alignment size : Z) : Z :=
  let p := align_up brk alignment in
  if is_power_of_two alignment && Z.ltb 0 brk && Z.leb 0 size && Z.leb (p + size) limit
  then p else 0.

(** The platform [pf] with that primitive behind [std::aligned_alloc], the
    free store starting at [brk k] when request [k] is made. *)
Definition with_aligned_alloc (brk : nat -> Z) (limit : Z) (pf : platform) : platform := {|
  allocate := fun r k =>
    match r with
    | ReqAlignedAlloc alignment size => aligned_alloc (brk k) limit alignment size
    | _ => allocate pf r k
    end;
  clock_now := clock_now pf;
  numa_available := numa_available pf;
  fresh_byte := fresh_byte pf
|}.

Lemma align_up_multiple off a : align_up off a mod a = 0.
Proof. unfold align_up. apply Z_mod_mult. Qed.

Lemma align_up_ge off a : 0 < a -> off <= align_up off a.
Proof. intros Ha. unfold align_up. Z.div_mod_to_equations. nia. Qed.

Lemma aligned_alloc_multiple brk limit alignment size :
  aligned_alloc brk limit alignment size mod alignment = 0.
Proof.
  unfold aligned_alloc.
  destruct (is_power_of_two alignment && Z.ltb 0 brk && Z.leb 0 size
            && Z.leb (align_up brk alignment + size) limit).
  - apply align_up_multiple.
  - apply Zmod_0_l.
Qed.

(** A successful acquisition: a power of two was asked for, and the block
    lies in the free store. *)
Lemma aligned_alloc_granted brk limit alignment size :
  aligned_alloc brk limit alignment size <> 0 ->
  is_power_of_two alignment = true /\
  brk <= aligned_alloc brk limit alignment size /\
  aligned_alloc brk limit alignment size + size <= limit.
Proof.
  unfold aligned_alloc.
  destruct (is_power_of_two alignment) eqn:Hpow; [|intros Hnull; now contradiction Hnull].
  destruct (Z.ltb_spec 0 brk) as [Hbrk|_]; [|intros Hnull; now contradiction Hnull].
  destruct (Z.leb_spec 0 size) as [Hsize|_]; [|intros Hnull; now contradiction Hnull].
  destruct (Z.leb_spec (align_up brk alignment + size) limit) as [Hfit|_];
    [|intros Hnull; now contradiction Hnull].
  simpl. intros _. split; [reflexivity|]. split; [|assumption].
  apply align_up_ge. unfold is_power_of_two in Hpow.
  apply andb_prop in Hpow as [Hpos _]. now apply Z.ltb_lt.
Qed.

Lemma with_aligned_alloc_contract brk limit pf :
  aligned_alloc_contract (with_aligned_alloc brk limit pf).
Proof. intros al sz k _. apply aligned_alloc_multiple. Qed.

(** C3: every successful acquisition by the aligned allocation primitive
    returns a multiple of the alignment asked for (a power of two), inside
    the free store. [main] asks it for alignment 64 and [64 * num_structs]
    bytes; an [AlignedStruct] occupies exactly 64 bytes; so when the
    acquisition succeeds the base address of the aligned array, and the
    address of every element, is a multiple of 64. [main] does make that
    request, once its first array is granted. *)
Theorem aligned_elements_on_line_starts (brk : nat -> Z) (limit : Z) pf n out tr :
  (forall b alignment size,
     aligned_alloc b limit alignment size <> 0 ->
     aligned_alloc b limit alignment size mod alignment = 0 /\
     is_power_of_two alignment = true /\
     b <= aligned_alloc b limit alignment size /\
     aligned_alloc b limit alignment size + size <= limit) /\
  (run (main_with n) (with_aligned_alloc brk limit pf) = (out, tr) ->
   forall al sz p, In (EvAlloc (ReqAlignedAlloc al sz) p) tr -> p <> 0 ->
     al = CACHE_LINE_SIZE /\ sz = 64 * n /\
     p = aligned_alloc (brk 1%nat) limit CACHE_LINE_SIZE (64 * n) /\
     p mod al = 0 /\
     @elem_size AlignedStruct _ = 64 /\
     forall i, 0 <= i < n -> @elem_addr AlignedStruct _ p i mod 64 = 0) /\
  (allocate pf (ReqNewArray (struct_size UnalignedStruct_def * n)) 0 <> 0 ->
   In (EvAlloc (ReqAlignedAlloc CACHE_LINE_SIZE (64 * n))
               (aligned_alloc (brk 1%nat) limit CACHE_LINE_SIZE (64 * n)))
      (snd (run (main_with n) (with_aligned_alloc brk limit pf)))).
Proof.
  refine (conj _ (conj _ _)).
  - intros b alignment size Hok. split; [apply aligned_alloc_multiple|].
    now apply aligned_alloc_granted.
  - intros Hrun al sz p Hin Hp.
    exact (elements_under_contract _ n out tr (with_aligned_alloc_contract brk limit pf)
             Hrun al sz p Hin Hp).
  - intros Hfirst. rewrite main_with_run. cbv zeta.
    cbn [allocate with_aligned_alloc]. change (struct_size AlignedStruct_def) with 64.
    destruct (Z.eqb_spec (allocate pf (ReqNewArray (struct_size UnalignedStruct_def * n)) 0) 0);
      [contradiction|].
    destruct (Z.eqb _ 0); cbn [snd In]; auto 10.
Qed.

Lemma main_with_2_aligned_alloc :
  run (main_with 2) (with_aligned_alloc (fun k => 5000 + Z.of_nat k) 1000000 generous)
  = (Done 0,
     [EvOut "🔍 Testing cache line alignment impact..." [];
      EvAlloc (ReqNewArray 128) 4096; EvMemset 4096 0 128;
      EvAlloc (ReqAlignedAlloc 64 128) 5056; EvMemset 5056 0 128;
      EvClock 0; EvPattern "❌ Unaligned access";
      EvClock 3000000; EvOut "❌ Unaligned access" [VInt 3; VInt 0];
      EvClock 6000000; EvPattern "✅ Aligned access";
      EvClock 9000000; EvOut "✅ Aligned access" [VInt 3; VInt 0];
      EvRelease RelDeleteArray 4096; EvRelease RelFree 5056]).
Proof. rewrite main_with_run. reflexivity. Qed.

Lemma aligned_elements_on_line_starts_witness :
  aligned_alloc 5001 1000000 64 128 = 5056 /\
  5056 mod 64 = 0 /\
  @elem_addr AlignedStruct _ 5056 1 mod 64 = 0.
Proof.
  destruct (proj1 (proj2 (aligned_elements_on_line_starts
                            (fun k => 5000 + Z.of_nat k) 1000000 generous 2 _ _))
              main_with_2_aligned_alloc 64 128 5056)
    as (_ & _ & Hp & Hmod & _ & Helems).
  - simpl. tauto.
  - discriminate.
  - refine (conj (eq_sym Hp) (conj Hmod (Helems 1 _))). lia.
Defined.

(** ** The scan and the bounds of the array *)

Lemma for_range_first_none {St : Type} (body : nat -> St -> option St) start n s :
  body start s = None -> for_range start (S n) body s = None.
Proof. intros Hnone. simpl. now rewrite Hnone. Qed.

Lemma scan_fields_past_end {T} `{Element T} (arr : list T) i sum :
  arr !! i = None -> for_range 0 16 (fun j => read_add arr i j) sum = None.
Proof.
  intros Hnone. apply for_range_first_none. unfold read_add. now rewrite Hnone.
Qed.

Lemma scan_elements_past_end {T} `{Element T} (arr : list T) count sum :
  (length arr < count)%nat -> Forall (fun s => length (data s) = 16%nat) arr ->
  is_llong sum ->
  for_range 0 count (fun i => for_range 0 16 (fun j => read_add arr i j)) sum = None.
Proof.
  intros Hlt Hwt Hsum.
  replace count with (length arr + S (count - S (length arr)))%nat by lia.
  rewrite for_range_app, (scan_elements arr (length arr) sum) by (auto; lia).
  apply for_range_first_none, scan_fields_past_end, lookup_ge_None_2. simpl. lia.
Qed.

(** X1: [benchmarkAccess] reads exactly the first [count] elements, each
    [NUM_ITERATIONS] times: with [count] within the array the accumulator
    is the 64-bit reduction of [NUM_ITERATIONS] times the sum of the fields
    of those elements (0 when [count] is 0), whatever the later elements
    hold; with [count] beyond the array it reads outside the array. *)
Theorem scan_reads_first_count {T} `{Element T} (arr : list T) (count : nat) :
  Forall well_typed arr ->
  ((count <= length arr)%nat ->
   scan arr count 0 = Some (wrap64 (Z.of_nat NUM_ITERATIONS * total (take count arr)))) /\
  ((length arr < count)%nat -> scan arr count 0 = None).
Proof.
  intros Hwt. apply well_typed_lengths in Hwt.
  assert (Hz : is_llong 0) by (unfold is_llong, LLONG_MIN, LLONG_MAX; lia).
  split; intros Hcount.
  - unfold scan.
    destruct (for_range_inv
                (fun k t => t = wrap64 (Z.of_nat k * total (take count arr)))
                (fun _ => for_range 0 count
                            (fun i => for_range 0 16 (fun j => read_add arr i j)))
                NUM_ITERATIONS 0 0) as (t & -> & Ht).
    + reflexivity.
    + intros k t Hk ->. eexists. split.
      * apply scan_elements; [lia | exact Hwt | apply wrap64_range].
      * rewrite wrap64_add_l. f_equal. lia.
    + now rewrite Ht.
  - unfold scan, NUM_ITERATIONS. apply for_range_first_none.
    now apply scan_elements_past_end.
Qed.

Lemma scan_reads_first_count_witness :
  scan [ {| u_data := replicate 16 2 |}; {| u_data := replicate 16 INT_MAX |} ] 1 0
  = Some 3200
  /\ scan [ {| u_data := replicate 16 2 |} ] 2 0 = None.
Proof.
  split.
  - refine (eq_trans (proj1 (scan_reads_first_count
              [ {| u_data := replicate 16 2 |}; {| u_data := replicate 16 INT_MAX |} ] 1 _) _) _).
    + repeat constructor; unfold INT_MIN, INT_MAX; lia.
    + simpl. lia.
    + reflexivity.
  - refine (proj2 (scan_reads_first_count [ {| u_data := replicate 16 2 |} ] 2 _) _).
    + repeat constructor; unfold INT_MIN, INT_MAX; lia.
    + simpl. lia.
Defined.

(** ** Elements and cache lines *)

(** The object of [size] bytes at [addr] lies on two cache lines. *)
Definition straddles (addr size : Z) : Prop :=
  line_of addr <> line_of (addr + size - 1).

(** X2: an element of the aligned array never lies on two cache lines; in
    an array of [UnalignedStruct] (whose alignment is that of [int]) either
    no element does, when the array starts on a line boundary, or every
    element does. *)
Theorem elements_and_lines (base i : Z) :
  (base mod struct_align AlignedStruct_def = 0 ->
   ~ straddles (@elem_addr AlignedStruct _ base i) (@elem_size AlignedStruct _)) /\
  (base mod struct_align UnalignedStruct_def = 0 ->
   (straddles (@elem_addr UnalignedStruct _ base i) (@elem_size UnalignedStruct _)
    <-> base mod 64 <> 0)).
Proof.
  unfold straddles, elem_addr, line_of, CACHE_LINE.
  change (@elem_size AlignedStruct _) with 64.
  change (@elem_size UnalignedStruct _) with 64.
  change (struct_align AlignedStruct_def) with 64.
  change (struct_align UnalignedStruct_def) with 4.
  split.
  - intros Hbase Hne. apply Hne. Z.div_mod_to_equations. lia.
  - intros Hbase. split.
    + intros Hne H0. apply Hne. Z.div_mod_to_equations. lia.
    + intros Hne Heq. Z.div_mod_to_equations. lia.
Qed.

Lemma elements_and_lines_witness :
  ~ straddles (@elem_addr AlignedStruct _ 8192 3) 64 /\
  straddles (@elem_addr UnalignedStruct _ 4100 3) 64.
Proof.
  split.
  - apply (proj1 (elements_and_lines 8192 3)). reflexivity.
  - apply (proj2 (elements_and_lines 4100 3)); [reflexivity | discriminate].
Defined.

End CacheAlignment.

(* ===================================================================== *)
(** * numa_access/numa_access.cpp *)
(* ===================================================================== *)

Module NumaAccess.

Definition NUM_ITERATIONS : Z := 500000000.
Definition DATA_SIZE : Z := 1024 * 1024.

(** The index the [i]-th iteration touches: [i % DATA_SIZE]. *)
Definition index_of (data_size : Z) (i : nat) : Z := Z.of_nat i mod data_size.

(** [data[i % DATA_SIZE]++] on the [volatile char* data]. The region
    [memory] points to is the list of its bytes; the access faults ([None])
    when [memory] is null or the index is outside the region. *)
Definition touch (memory data_size : Z) (i : nat) (region : list Z) : option (list Z) :=
  if Z.eqb memory 0 then None
  else
    let idx := index_of data_size i in
    if Z.ltb idx 0 then None
    else
      b ← region !! Z.to_nat idx;
      Some (<[Z.to_nat idx := wrap8 (b + 1)]> region).

(** The loop of [runBenchmark]. *)
Definition access_loop (memory data_size : Z) (iterations : nat) (region : list Z)
    : option (list Z) :=
  for_range 0 iterations (touch memory data_size) region.

(** [runBenchmark] returns [void]; the model hands back the bytes of the
    region as the loop leaves them. Only the duration is printed. *)
Definition runBenchmark_with (data_size : Z) (iterations : nat)
    (memory : Z) (region : list Z) (node : Z) (label : string) : Prog (list Z) :=
  emit (EvRunOnNode node);;
  start ← now;
  region' ← pattern label (access_loop memory data_size iterations region);
  end_ ← now;
  let duration := duration_ms (end_ - start) in
  emit (EvOut label [VInt duration]);;
  mret region'.

Definition runBenchmark : Z -> list Z -> Z -> string -> Prog (list Z) :=
  runBenchmark_with DATA_SIZE (Z.to_nat NUM_ITERATIONS).

(** The bytes of a fresh region of [size] bytes at [p]. *)
Definition fresh_region (pf : platform) (p size : Z) : list Z :=
  map (fun k => wrap8 (fresh_byte pf (p + Z.of_nat k))) (seq 0 (Z.to_nat size)).

(** [main], for a region of [data_size] bytes and [iterations] accesses per
    run. The pointer [numa_alloc_onnode] returns is not checked. *)
Definition main_with (data_size : Z) (iterations : nat) : Prog Z :=
  avail ← get_platform numa_available;
  if Z.eqb avail (-1) then
    emit (EvErr "NUMA is not available on this system.");;
    mret 1
  else
    memory ← alloc (ReqNumaAlloc data_size 0);
    region ← get_platform (fun pf => fresh_region pf memory data_size);
    emit (EvOut "🔍 NUMA Memory Access Benchmark" []);;
    region1 ← runBenchmark_with data_size iterations memory region 0 "✅ Local access (Node 0)";
    region2 ← runBenchmark_with data_size iterations memory region1 1 "❌ Remote access (Node 1)";
    emit (EvRelease (RelNumaFree data_size) memory);;
    mret 0.

Definition main : Prog Z := main_with DATA_SIZE (Z.to_nat NUM_ITERATIONS).

(** ** The loop stays inside the region *)

Lemma index_of_range data_size i :
  0 < data_size -> 0 <= index_of data_size i < data_size.
Proof. intros Hpos. unfold index_of. now apply Z.mod_pos_bound. Qed.

Lemma touch_in_region memory data_size i region :
  memory <> 0 -> 0 < data_size -> Z.of_nat (length region) = data_size ->
  exists region', touch memory data_size i region = Some region'
                  /\ length region' = length region.
Proof.
  intros Hp Hpos Hlen. unfold touch.
  destruct (Z.eqb_spec memory 0) as [|_]; [contradiction|].
  pose proof (index_of_range data_size i Hpos) as Hidx.
  destruct (Z.ltb_spec (index_of data_size i) 0) as [|_]; [lia|].
  destruct (lookup_lt_is_Some_2 region (Z.to_nat (index_of data_size i))) as [b Hb]; [lia|].
  rewrite Hb. simpl. eexists. split; [reflexivity|]. apply length_insert.
Qed.

Lemma access_loop_in_region memory data_size iterations region :
  memory <> 0 -> 0 < data_size -> Z.of_nat (length region) = data_size ->
  exists region', access_loop memory data_size iterations region = Some region'
                  /\ length region' = length region.
Proof.
  intros Hp Hpos Hlen. unfold access_loop.
  destruct (for_range_inv (fun _ r => length r = length region)
              (touch memory data_size) iterations 0 region eq_refl)
    as (r & Hr & Hlr).
  - intros i t _ Ht.
    destruct (touch_in_region memory data_size i t Hp Hpos ltac:(lia)) as (t' & ? & ?).
    exists t'. split; [assumption | congruence].
  - exists r. auto.
Qed.

(** C10: for every iteration [i] the index [i % DATA_SIZE] lies in
    [0, DATA_SIZE), and so, for any iteration count, the loop of
    [runBenchmark] over an acquired region of [DATA_SIZE] bytes never
    accesses a byte outside the region: it runs to its end without a fault
    and leaves a region of the same size. *)
Theorem access_loop_stays_in_region memory iterations region :
  memory <> 0 -> Z.of_nat (length region) = DATA_SIZE ->
  (forall i : nat, 0 <= index_of DATA_SIZE i < DATA_SIZE) /\
  exists region', access_loop memory DATA_SIZE iterations region = Some region'
                  /\ Z.of_nat (length region') = DATA_SIZE.
Proof.
  intros Hp Hlen. split.
  - intros i. apply index_of_range. unfold DATA_SIZE. lia.
  - destruct (access_loop_in_region memory DATA_SIZE iterations region Hp) as (r & Hr & Hl);
      [unfold DATA_SIZE; lia | exact Hlen |].
    exists r. split; [exact Hr | congruence].
Qed.

Lemma access_loop_stays_in_region_witness :
  exists region', access_loop 4096 DATA_SIZE 5 (replicate (Z.to_nat DATA_SIZE) 0) = Some region'
                  /\ Z.of_nat (length region') = DATA_SIZE.
Proof.
  refine (proj2 (access_loop_stays_in_region 4096 5 (replicate (Z.to_nat DATA_SIZE) 0) _ _)).
  - discriminate.
  - rewrite length_replicate. apply Z2Nat.id. unfold DATA_SIZE. lia.
Defined.

(** ** What the loop leaves in the region *)

(** The number of iterations [i < n] with [i % data_size = k]. *)
Definition visits (data_size : Z) (n : nat) (k : Z) : Z :=
  (Z.of_nat n + data_size - 1 - k) / data_size.

Lemma visits_0 data_size k : 0 <= k < data_size -> visits data_size 0 k = 0.
Proof. intros Hk. unfold visits. apply Z.div_small. lia. Qed.

Lemma visits_step data_size n k :
  0 <= k < data_size ->
  visits data_size (S n) k
  = visits data_size n k + (if Z.eqb (index_of data_size n) k then 1 else 0).
Proof.
  intros Hk. unfold visits, index_of. rewrite Nat2Z.inj_succ.
  pose proof (Z.div_mod (Z.of_nat n) data_size ltac:(lia)) as Hdm.
  pose proof (Z.mod_pos_bound (Z.of_nat n) data_size ltac:(lia)) as Hm.
  set (q := Z.of_nat n / data_size) in *. set (m := Z.of_nat n mod data_size) in *.
  destruct (Z.eqb_spec m k) as [Heq|Hne].
  - rewrite <- (Z.div_unique (Z.of_nat n + data_size - 1 - k) data_size q (data_size - 1))
      by (try left; lia).
    rewrite <- (Z.div_unique (Z.succ (Z.of_nat n) + data_size - 1 - k) data_size (q + 1) 0)
      by (try left; lia).
    reflexivity.
  - destruct (Z.lt_ge_cases m k).
    + rewrite <- (Z.div_unique (Z.of_nat n + data_size - 1 - k) data_size q
                    (m + data_size - 1 - k)) by (try left; lia).
      rewrite <- (Z.div_unique (Z.succ (Z.of_nat n) + data_size - 1 - k) data_size q
                    (m + data_size - k)) by (try left; lia).
      lia.
    + rewrite <- (Z.div_unique (Z.of_nat n + data_size - 1 - k) data_size (q + 1)
                    (m - 1 - k)) by (try left; lia).
      rewrite <- (Z.div_unique (Z.succ (Z.of_nat n) + data_size - 1 - k) data_size (q + 1)
                    (m - k)) by (try left; lia).
      lia.
Qed.

Lemma wrap8_succ v : wrap8 (wrap8 v + 1) = wrap8 (v + 1).
Proof. unfold wrap8. apply Zplus_mod_idemp_l. Qed.

(** After [n] iterations each byte has gained, modulo 256, the number of
    iterations that fell on it. *)
Lemma access_loop_adds memory data_size iterations (region : list Z) :
  memory <> 0 -> 0 < data_size -> Z.of_nat (length region) = data_size ->
  Forall (fun b => 0 <= b < 256) region ->
  exists region',
    access_loop memory data_size iterations region = Some region' /\
    length region' = length region /\
    forall (k : nat) b, region !! k = Some b ->
      region' !! k = Some (wrap8 (b + visits data_size iterations (Z.of_nat k))).
Proof.
  intros Hmem Hpos Hlen Hbytes.
  unfold access_loop.
  destruct (for_range_inv
              (fun i r => length r = length region /\
                          forall (k : nat) b, region !! k = Some b ->
                            r !! k = Some (wrap8 (b + visits data_size i (Z.of_nat k))))
              (touch memory data_size) iterations 0 region) as (r & Hr & Hlr & Hvals).
  - split; [reflexivity|]. intros k b Hk.
    pose proof (lookup_lt_Some _ _ _ Hk) as Hlt.
    rewrite visits_0 by lia. rewrite Hk. f_equal.
    rewrite Forall_forall in Hbytes.
    pose proof (Hbytes b (list_elem_of_lookup_2 _ _ _ Hk)) as Hb.
    unfold wrap8. rewrite Z.add_0_r, Z.mod_small; lia.
  - intros i t _ [Hlt Hinv].
    pose proof (index_of_range data_size i Hpos) as Hidx.
    destruct (lookup_lt_is_Some_2 region (Z.to_nat (index_of data_size i))) as [b0 Hb0];
      [lia|].
    pose proof (Hinv _ _ Hb0) as Ht0. rewrite Z2Nat.id in Ht0 by lia.
    unfold touch. destruct (Z.eqb_spec memory 0) as [|_]; [contradiction|].
    destruct (Z.ltb_spec (index_of data_size i) 0) as [|_]; [lia|].
    rewrite Ht0. simpl. eexists. split; [reflexivity|]. split.
    + now rewrite length_insert.
    + intros k b Hk. pose proof (lookup_lt_Some _ _ _ Hk) as Hklt.
      rewrite visits_step by lia.
      destruct (Z.eqb_spec (index_of data_size i) (Z.of_nat k)) as [Heq|Hne].
      * rewrite Heq, Nat2Z.id. rewrite list_lookup_insert_eq by lia.
        rewrite Heq, Nat2Z.id in Hb0. rewrite Hb0 in Hk. injection Hk as <-.
        f_equal. rewrite wrap8_succ. f_equal. lia.
      * rewrite list_lookup_insert_ne by lia.
        rewrite (Hinv _ _ Hk). f_equal. f_equal. lia.
  - exists r. auto.
Qed.

(** X3: the loop of [runBenchmark] adds to each byte of the region, modulo
    256, the number of iterations that fall on it: byte [k] is incremented
    [(n + data_size - 1 - k) / data_size] times by [n] iterations. With the
    constants of the program that is 477 times for the first 877,824 bytes
    and 476 times for the others. *)
Theorem access_loop_effect memory data_size iterations (region : list Z) :
  memory <> 0 -> 0 < data_size -> Z.of_nat (length region) = data_size ->
  Forall (fun b => 0 <= b < 256) region ->
  (exists region',
     access_loop memory data_size iterations region = Some region' /\
     length region' = length region /\
     forall (k : nat) b, region !! k = Some b ->
       region' !! k = Some (wrap8 (b + visits data_size iterations (Z.of_nat k)))) /\
  (forall k, 0 <= k < DATA_SIZE ->
     visits DATA_SIZE (Z.to_nat NUM_ITERATIONS) k = if Z.ltb k 877824 then 477 else 476).
Proof.
  intros Hmem Hpos Hlen Hbytes. split.
  - now apply access_loop_adds.
  - intros k Hk. unfold visits, DATA_SIZE, NUM_ITERATIONS in *.
    rewrite Z2Nat.id by lia.
    destruct (Z.ltb_spec k 877824); Z.div_mod_to_equations; lia.
Qed.

Lemma access_loop_effect_witness :
  exists region',
    access_loop 4096 4 10 [0; 7; 255; 100] = Some region' /\
    region' !! 2%nat = Some (wrap8 (255 + visits 4 10 2)).
Proof.
  destruct (proj1 (access_loop_effect 4096 4 10 [0; 7; 255; 100] ltac:(discriminate)
                     ltac:(lia) eq_refl ltac:(repeat constructor; lia)))
    as (region' & Hloop & _ & Hvals).
  exists region'. split; [exact Hloop|]. exact (Hvals 2%nat 255 eq_refl).
Defined.




End NumaAccess.

(* ===================================================================== *)
(** * heap_vs_pool: heap allocation against a memory pool *)
(* ===================================================================== *)

Module HeapVsPool.
Import Layout.

Definition NUM_OBJECTS : Z := 10000000.

(** [struct Trade { int id; double price; int quantity; };] *)
Definition Trade_def : struct_def :=
  {| alignas := None;
     members := [("id"%string, Tint); ("price"%string, Tdouble); ("quantity"%string, Tint)] |}.

(** The address of [trades[i]]. *)
Definition slot (trades : Z) (i : nat) : Z := trades + Z.of_nat i * struct_size Trade_def.

(** [new Trade{...}]: storage from [operator new], then the object. *)
Definition new_Trade : Prog Z :=
  p ← alloc_or_throw (ReqNew (struct_size Trade_def));
  emit (EvConstruct p);;
  mret p.

(** [delete t]: the destructor, then [operator delete]. *)
Definition delete_Trade (t : Z) : Prog unit :=
  emit (EvDestroy t);;
  emit (EvRelease RelDelete t).

(** [std::vector<Trade*>]: the buffer it holds its pointers in, the count
    of pointers the buffer has room for, and the pointers held. A vector
    without room has no buffer. *)
Record vector := { buffer : Z; capacity : nat; items : list Z }.

Definition empty_vector : vector := {| buffer := 0; capacity := 0; items := [] |}.

Definition sizeof_pointer : Z := 8.

(** The count of pointers a vector holds before it refuses to grow. *)
Definition max_pointers : Z := PTRDIFF_MAX / sizeof_pointer.

(** The buffer a vector has to give back. *)
Definition live (v : vector) : list Z :=
  if (capacity v =? 0)%nat then [] else [buffer v].

(** The vector gives its buffer back: when it has grown out of it, and
    when it is destroyed. *)
Definition vector_destroy (v : vector) : Prog unit :=
  for_list (live v) (fun b => emit (EvRelease RelVector b)).

(** [trades.push_back(t)], on a vector of fewer than [max_pointers]
    pointers. While there is room the pointer is stored in the buffer. When
    there is none the vector asks for a larger buffer (a thrown
    [std::bad_alloc] when it is denied), moves into it and gives the old
    one back; [growth] is the policy of the library for the new room
    (libstdc++ doubles it), which is at least the room needed. *)
Definition push_back (growth : nat -> nat) (v : vector) (t : Z) : Prog vector :=
  if (length (items v) <? capacity v)%nat
  then mret {| buffer := buffer v; capacity := capacity v; items := items v ++ [t] |}
  else
    let room := Nat.max (S (length (items v))) (growth (capacity v)) in
    storage ← alloc_or_throw (ReqVector (sizeof_pointer * Z.of_nat room));
    vector_destroy v;;
    mret {| buffer := storage; capacity := room; items := items v ++ [t] |}.

Definition doubling (room : nat) : nat := (2 * room)%nat.

(** [heapAllocationBenchmark], for [n] objects: [new Trade{...}] is
    evaluated before [push_back] is entered; the vector is destroyed at the
    end of the function, after the print. *)
Definition heapAllocationBenchmark_with (growth : nat -> nat) (n : nat) : Prog unit :=
  start ← now;
  trades ← for_fold 0 n (fun _ trades => t ← new_Trade; push_back growth trades t)
             empty_vector;
  for_list (items trades) delete_Trade;;
  end_ ← now;
  emit (EvOut "❌ Heap Allocation took: " [VInt (duration_ms (end_ - start))]);;
  vector_destroy trades.

(** [new (&trades[i]) Trade{...}]: writes the object into the region, a
    fault when the region is the null pointer. *)
Definition placement_new (memory p : Z) : Prog unit :=
  if Z.eqb memory 0 then raise Fault else emit (EvConstruct p).

(** [poolAllocationBenchmark], for [n] objects. The pointer [malloc]
    returns is not checked. *)
Definition poolAllocationBenchmark_with (n : nat) : Prog unit :=
  start ← now;
  memory ← alloc (ReqMalloc (struct_size Trade_def * Z.of_nat n));
  let trades := memory in
  for_each 0 n (fun i => placement_new memory (slot trades i));;
  for_each 0 n (fun i => emit (EvDestroy (slot trades i)));;
  emit (EvRelease RelFree memory);;
  end_ ← now;
  emit (EvOut "✅ Pool Allocation took: " [VInt (duration_ms (end_ - start))]).

Definition heapAllocationBenchmark (growth : nat -> nat) : Prog unit :=
  heapAllocationBenchmark_with growth (Z.to_nat NUM_OBJECTS).
Definition poolAllocationBenchmark : Prog unit :=
  poolAllocationBenchmark_with (Z.to_nat NUM_OBJECTS).

Definition main (growth : nat -> nat) : Prog Z :=
  emit (EvOut "🚀 Comparing Heap vs Memory Pool Allocation..." []);;
  heapAllocationBenchmark growth;;
  poolAllocationBenchmark;;
  mret 0.

(** ** Reading the trace of the pool *)

(** The addresses at which an object was constructed, in order. *)
Fixpoint constructed (tr : list event) : list Z :=
  match tr with
  | [] => []
  | EvConstruct p :: rest => p :: constructed rest
  | _ :: rest => constructed rest
  end.

(** The addresses whose object was destroyed, in order. *)
Fixpoint destroyed (tr : list event) : list Z :=
  match tr with
  | [] => []
  | EvDestroy p :: rest => p :: destroyed rest
  | _ :: rest => destroyed rest
  end.

(** The addresses whose object was destroyed before the first release of
    a block. *)
Fixpoint destroyed_before_release (tr : list event) : list Z :=
  match tr with
  | [] => []
  | EvDestroy p :: rest => p :: destroyed_before_release rest
  | EvRelease _ _ :: _ => []
  | _ :: rest => destroyed_before_release rest
  end.

(** The blocks released, in order. *)
Fixpoint released (tr : list event) : list (release * Z) :=
  match tr with
  | [] => []
  | EvRelease r p :: rest => (r, p) :: released rest
  | _ :: rest => released rest
  end.

Lemma constructed_app tr1 tr2 : constructed (tr1 ++ tr2) = constructed tr1 ++ constructed tr2.
Proof. induction tr1 as [|[] tr1 IH]; simpl; congruence. Qed.

Lemma destroyed_app tr1 tr2 : destroyed (tr1 ++ tr2) = destroyed tr1 ++ destroyed tr2.
Proof. induction tr1 as [|[] tr1 IH]; simpl; congruence. Qed.

Lemma released_app tr1 tr2 : released (tr1 ++ tr2) = released tr1 ++ released tr2.
Proof. induction tr1 as [|[] tr1 IH]; simpl; congruence. Qed.

Lemma constructed_constructs (f : nat -> Z) l :
  constructed (map (fun i => EvConstruct (f i)) l) = map f l.
Proof. induction l as [|i l IH]; simpl; congruence. Qed.

Lemma constructed_destroys (f : nat -> Z) l :
  constructed (map (fun i => EvDestroy (f i)) l) = [].
Proof. induction l as [|i l IH]; simpl; congruence. Qed.

Lemma destroyed_destroys (f : nat -> Z) l :
  destroyed (map (fun i => EvDestroy (f i)) l) = map f l.
Proof. induction l as [|i l IH]; simpl; congruence. Qed.

Lemma destroyed_constructs (f : nat -> Z) l :
  destroyed (map (fun i => EvConstruct (f i)) l) = [].
Proof. induction l as [|i l IH]; simpl; congruence. Qed.

Lemma released_constructs (f : nat -> Z) l :
  released (map (fun i => EvConstruct (f i)) l) = [].
Proof. induction l as [|i l IH]; simpl; congruence. Qed.

Lemma released_destroys (f : nat -> Z) l :
  released (map (fun i => EvDestroy (f i)) l) = [].
Proof. induction l as [|i l IH]; simpl; congruence. Qed.

Lemma before_release_constructs (f : nat -> Z) l rest :
  destroyed_before_release (map (fun i => EvConstruct (f i)) l ++ rest)
  = destroyed_before_release rest.
Proof. induction l as [|i l IH]; simpl; congruence. Qed.

Lemma before_release_destroys (f : nat -> Z) l r p rest :
  destroyed_before_release (map (fun i => EvDestroy (f i)) l ++ EvRelease r p :: rest)
  = map f l.
Proof. induction l as [|i l IH]; simpl; congruence. Qed.

(** The run of the pool benchmark when [malloc] succeeds. *)
Lemma pool_run pf n :
  let req := ReqMalloc (struct_size Trade_def * Z.of_nat n) in
  let memory := allocate pf req 0 in
  memory <> 0 ->
  run (poolAllocationBenchmark_with n) pf
  = (Done tt,
     [EvClock (clock_now pf 0); EvAlloc req memory]
     ++ map (fun i => EvConstruct (slot memory i)) (seq 0 n)
     ++ map (fun i => EvDestroy (slot memory i)) (seq 0 n)
     ++ [EvRelease RelFree memory; EvClock (clock_now pf 1);
         EvOut "✅ Pool Allocation took: "
           [VInt (duration_ms (clock_now pf 1 - clock_now pf 0))]]).
Proof.
  intros req memory Hmem.
  unfold run, poolAllocationBenchmark_with.
  cbv [mbind prog_bind now alloc world0 trace clock_reads alloc_calls app].
  fold req. fold memory.
  rewrite (for_each_emits _ (fun i => EvConstruct (slot memory i))).
  2:{ intros i pf' w. unfold placement_new.
      destruct (Z.eqb_spec memory 0); [contradiction | reflexivity]. }
  cbv beta iota. rewrite (for_each_emits _ (fun i => EvDestroy (slot memory i))) by reflexivity.
  cbv [emit trace clock_reads alloc_calls fst snd]. cbv beta iota.
  f_equal. rewrite <- !app_assoc. reflexivity.
Qed.

Lemma slot_injective trades : Inj (=) (=) (slot trades).
Proof.
  intros i j Heq. unfold slot in Heq. change (struct_size Trade_def) with 24 in Heq. lia.
Qed.

(** C4: when the pool benchmark has run (its region was granted), an object
    was constructed in place in each of the [n] slots, the destructor ran
    on exactly the constructed objects, once each, all of that before the
    release, and the release is the single [free] of the region:
    constructions = destructions = [n], for every [n]. *)
Theorem pool_destroys_each_once pf n :
  let memory := allocate pf (ReqMalloc (struct_size Trade_def * Z.of_nat n)) 0 in
  let tr := snd (run (poolAllocationBenchmark_with n) pf) in
  memory <> 0 ->
  fst (run (poolAllocationBenchmark_with n) pf) = Done tt /\
  constructed tr = map (slot memory) (seq 0 n) /\
  NoDup (constructed tr) /\
  destroyed tr = constructed tr /\
  destroyed_before_release tr = destroyed tr /\
  released tr = [(RelFree, memory)] /\
  length (constructed tr) = n /\ length (destroyed tr) = n.
Proof.
  intros memory tr Hmem. subst tr. rewrite (pool_run pf n Hmem). fold memory.
  cbv [fst snd].
  assert (Hc : constructed
                 ([EvClock (clock_now pf 0);
                   EvAlloc (ReqMalloc (struct_size Trade_def * Z.of_nat n)) memory]
                  ++ map (fun i => EvConstruct (slot memory i)) (seq 0 n)
                  ++ map (fun i => EvDestroy (slot memory i)) (seq 0 n)
                  ++ [EvRelease RelFree memory; EvClock (clock_now pf 1);
                      EvOut "✅ Pool Allocation took: "
                        [VInt (duration_ms (clock_now pf 1 - clock_now pf 0))]])
               = map (slot memory) (seq 0 n)).
  { rewrite !constructed_app, constructed_constructs, constructed_destroys.
    simpl. now rewrite app_nil_r. }
  rewrite Hc.
  refine (conj eq_refl (conj eq_refl (conj _ (conj _ (conj _ (conj _ (conj _ _))))))).
  - change (map (slot memory) (seq 0 n)) with (slot memory <$> seq 0 n).
    apply NoDup_fmap_2; [apply slot_injective | apply NoDup_seq].
  - rewrite !destroyed_app, destroyed_constructs, destroyed_destroys.
    simpl. now rewrite app_nil_r.
  - rewrite !destroyed_app, destroyed_constructs, destroyed_destroys.
    simpl. rewrite app_nil_r.
    rewrite (before_release_constructs (slot memory)).
    apply (before_release_destroys (slot memory)).
  - rewrite !released_app, released_constructs, released_destroys. reflexivity.
  - now rewrite length_map, length_seq.
  - rewrite !destroyed_app, destroyed_constructs, destroyed_destroys.
    simpl. now rewrite app_nil_r, length_map, length_seq.
Qed.

Lemma pool_destroys_each_once_witness :
  constructed (snd (run (poolAllocationBenchmark_with 3) generous)) = [4096; 4120; 4144]
  /\ destroyed (snd (run (poolAllocationBenchmark_with 3) generous)) = [4096; 4120; 4144].
Proof.
  destruct (pool_destroys_each_once generous 3) as (_ & Hc & _ & Hd & _).
  - discriminate.
  - split; [exact Hc | now rewrite Hd, Hc].
Defined.

(** ** The heap benchmark allocates while the stopwatch runs *)








(** ** The heap benchmark, request by request *)

(** The events of one [new Trade{...}] that was granted, and of one
    [delete]. *)
Definition new_events (p : Z) : list event :=
  [EvAlloc (ReqNew (struct_size Trade_def)) p; EvConstruct p].
Definition delete_events (p : Z) : list event :=
  [EvDestroy p; EvRelease RelDelete p].

(** Reading the trace of the heap benchmark: the pointers [operator new]
    returned, the pointers given to [operator delete], the buffers the
    vector obtained and the buffers it gave back, the clock readings and
    the texts printed, each in order. *)
Definition new_pointers (tr : list event) : list Z :=
  omap (fun e => match e with EvAlloc (ReqNew _) p => Some p | _ => None end) tr.
Definition deleted (tr : list event) : list Z :=
  omap (fun e => match e with EvRelease RelDelete p => Some p | _ => None end) tr.
Definition vector_acquired (tr : list event) : list Z :=
  omap (fun e => match e with EvAlloc (ReqVector _) p => Some p | _ => None end) tr.
Definition vector_released (tr : list event) : list Z :=
  omap (fun e => match e with EvRelease RelVector p => Some p | _ => None end) tr.
Definition clock_readings (tr : list event) : list Z :=
  omap (fun e => match e with EvClock t => Some t | _ => None end) tr.
Definition printed (tr : list event) : list string :=
  omap (fun e => match e with EvOut text _ => Some text | _ => None end) tr.

(** The regions [malloc] returned and the pointers given to [free]. *)
Definition mallocs (tr : list event) : list Z :=
  omap (fun e => match e with EvAlloc (ReqMalloc _) p => Some p | _ => None end) tr.
Definition freed (tr : list event) : list Z :=
  omap (fun e => match e with EvRelease RelFree p => Some p | _ => None end) tr.

(** The requests the heap benchmark makes: of [operator new], and of the
    vector for its buffer. *)
Definition heap_request (r : request) : bool :=
  match r with ReqNew _ | ReqVector _ => true | _ => false end.

(** The events of the allocation loop: the requests of [new] and of the
    vector, the constructions, and the buffers the vector gives back. *)
Definition allocation_event (e : event) : bool :=
  match e with
  | EvAlloc r _ => heap_request r
  | EvConstruct _ => true
  | EvRelease RelVector _ => true
  | _ => false
  end.

(** A platform that grants every request of the heap benchmark. *)
Definition grants (pf : platform) : Prop :=
  forall r i, heap_request r = true -> allocate pf r i <> 0.

Lemma new_pointers_app tr1 tr2 :
  new_pointers (tr1 ++ tr2) = new_pointers tr1 ++ new_pointers tr2.
Proof. apply omap_app. Qed.

Lemma deleted_app tr1 tr2 : deleted (tr1 ++ tr2) = deleted tr1 ++ deleted tr2.
Proof. apply omap_app. Qed.

Lemma vector_acquired_app tr1 tr2 :
  vector_acquired (tr1 ++ tr2) = vector_acquired tr1 ++ vector_acquired tr2.
Proof. apply omap_app. Qed.

Lemma vector_released_app tr1 tr2 :
  vector_released (tr1 ++ tr2) = vector_released tr1 ++ vector_released tr2.
Proof. apply omap_app. Qed.

Lemma clock_readings_app tr1 tr2 :
  clock_readings (tr1 ++ tr2) = clock_readings tr1 ++ clock_readings tr2.
Proof. apply omap_app. Qed.

Lemma printed_app tr1 tr2 : printed (tr1 ++ tr2) = printed tr1 ++ printed tr2.
Proof. apply omap_app. Qed.

Lemma mallocs_app tr1 tr2 : mallocs (tr1 ++ tr2) = mallocs tr1 ++ mallocs tr2.
Proof. apply omap_app. Qed.

Lemma freed_app tr1 tr2 : freed (tr1 ++ tr2) = freed tr1 ++ freed tr2.
Proof. apply omap_app. Qed.

Lemma omap_map_none {A B C} (g : B -> option C) (h : A -> B) l :
  (forall a, g (h a) = None) -> omap g (map h l) = [].
Proof. intros Hnone. induction l as [|a l IH]; cbn; [reflexivity | now rewrite Hnone]. Qed.

(** What the events of the allocation loop leave out. *)
Lemma allocation_events_only body :
  forallb allocation_event body = true ->
  destroyed body = [] /\ deleted body = [] /\ clock_readings body = [] /\
  printed body = [] /\ mallocs body = [] /\ freed body = [] /\
  Forall (fun a => heap_request (fst a) = true) (acquisitions body).
Proof.
  induction body as [|e body IH]; [now repeat split|].
  cbn [forallb]. intros Hall. apply andb_true_iff in Hall as [He Hrest].
  destruct (IH Hrest) as (Hd & Hdel & Hc & Hp & Hm & Hf & Ha).
  destruct e as [[] p|[] p| | | | | | | |]; try discriminate He;
    cbn; repeat split; try assumption.
  all: constructor; [reflexivity | assumption].
Qed.

(** What [delete] of each pointer of a list is on the trace. *)
Lemma deletes_read l :
  constructed (flat_map delete_events l) = [] /\
  destroyed (flat_map delete_events l) = l /\
  deleted (flat_map delete_events l) = l /\
  new_pointers (flat_map delete_events l) = [] /\
  vector_acquired (flat_map delete_events l) = [] /\
  vector_released (flat_map delete_events l) = [] /\
  clock_readings (flat_map delete_events l) = [] /\
  printed (flat_map delete_events l) = [] /\
  acquisitions (flat_map delete_events l) = [] /\
  mallocs (flat_map delete_events l) = [] /\
  freed (flat_map delete_events l) = [].
Proof.
  induction l as [|p l (H1 & H2 & H3 & H4 & H5 & H6 & H7 & H8 & H9 & H10 & H11)];
    [now repeat split|].
  cbn. repeat split; try assumption; now f_equal.
Qed.

(** What the vector giving back its buffer is on the trace. *)
Lemma vector_releases_read l :
  constructed (map (EvRelease RelVector) l) = [] /\
  destroyed (map (EvRelease RelVector) l) = [] /\
  deleted (map (EvRelease RelVector) l) = [] /\
  new_pointers (map (EvRelease RelVector) l) = [] /\
  vector_acquired (map (EvRelease RelVector) l) = [] /\
  vector_released (map (EvRelease RelVector) l) = l /\
  clock_readings (map (EvRelease RelVector) l) = [] /\
  printed (map (EvRelease RelVector) l) = [] /\
  acquisitions (map (EvRelease RelVector) l) = [] /\
  forallb allocation_event (map (EvRelease RelVector) l) = true /\
  mallocs (map (EvRelease RelVector) l) = [] /\
  freed (map (EvRelease RelVector) l) = [].
Proof.
  induction l as [|p l (H1 & H2 & H3 & H4 & H5 & H6 & H7 & H8 & H9 & H10 & H11 & H12)];
    [now repeat split|].
  cbn. repeat split; try assumption; now f_equal.
Qed.

Lemma new_Trade_granted pf w :
  allocate pf (ReqNew (struct_size Trade_def)) (alloc_calls w) <> 0 ->
  new_Trade pf w
  = (Done (allocate pf (ReqNew (struct_size Trade_def)) (alloc_calls w)),
     {| trace := trace w
                 ++ new_events (allocate pf (ReqNew (struct_size Trade_def)) (alloc_calls w));
        clock_reads := clock_reads w; alloc_calls := S (alloc_calls w) |}).
Proof.
  intros Hp. unfold new_Trade, alloc_or_throw, alloc, emit, mbind, prog_bind, mret, prog_ret.
  cbn [trace clock_reads alloc_calls].
  destruct (Z.eqb_spec (allocate pf (ReqNew (struct_size Trade_def)) (alloc_calls w)) 0);
    [contradiction|].
  cbn [trace clock_reads alloc_calls]. now rewrite <- app_assoc.
Qed.

Lemma new_Trade_denied pf w :
  allocate pf (ReqNew (struct_size Trade_def)) (alloc_calls w) = 0 ->
  new_Trade pf w
  = (BadAlloc,
     {| trace := trace w ++ [EvAlloc (ReqNew (struct_size Trade_def)) 0];
        clock_reads := clock_reads w; alloc_calls := S (alloc_calls w) |}).
Proof.
  intros Hp. unfold new_Trade, alloc_or_throw, alloc, raise, mbind, prog_bind.
  cbn [trace clock_reads alloc_calls]. rewrite Hp. reflexivity.
Qed.

Lemma vector_destroy_exec v pf w :
  vector_destroy v pf w
  = (Done tt,
     {| trace := trace w ++ map (EvRelease RelVector) (live v);
        clock_reads := clock_reads w; alloc_calls := alloc_calls w |}).
Proof.
  unfold vector_destroy, live. destruct (capacity v =? 0)%nat; cbn.
  - rewrite app_nil_r. now destruct w.
  - reflexivity.
Qed.

(** [push_back] while the buffer has room. *)
Lemma push_back_room growth v t pf w :
  (length (items v) < capacity v)%nat ->
  push_back growth v t pf w
  = (Done {| buffer := buffer v; capacity := capacity v; items := items v ++ [t] |}, w).
Proof.
  intros Hroom. unfold push_back.
  destruct (Nat.ltb_spec (length (items v)) (capacity v)); [reflexivity | lia].
Qed.

(** [push_back] when the buffer is full and a larger one is granted. *)
Lemma push_back_granted growth v t pf w :
  let room := Nat.max (S (length (items v))) (growth (capacity v)) in
  let r := ReqVector (sizeof_pointer * Z.of_nat room) in
  let q := allocate pf r (alloc_calls w) in
  (capacity v <= length (items v))%nat -> q <> 0 ->
  push_back growth v t pf w
  = (Done {| buffer := q; capacity := room; items := items v ++ [t] |},
     {| trace := trace w ++ EvAlloc r q :: map (EvRelease RelVector) (live v);
        clock_reads := clock_reads w; alloc_calls := S (alloc_calls w) |}).
Proof.
  intros room r q Hfull Hq. unfold push_back.
  destruct (Nat.ltb_spec (length (items v)) (capacity v)); [lia|].
  fold room. fold r. rewrite bind_unfold.
  unfold alloc_or_throw. rewrite bind_unfold. unfold alloc at 1. cbv beta iota zeta.
  fold q. destruct (Z.eqb_spec q 0); [contradiction|].
  cbn [mret prog_ret]. rewrite bind_unfold, vector_destroy_exec.
  cbn [trace clock_reads alloc_calls]. now rewrite <- app_assoc.
Qed.

(** [push_back] when the buffer is full and a larger one is denied. *)
Lemma push_back_denied growth v t pf w :
  let room := Nat.max (S (length (items v))) (growth (capacity v)) in
  let r := ReqVector (sizeof_pointer * Z.of_nat room) in
  (capacity v <= length (items v))%nat -> allocate pf r (alloc_calls w) = 0 ->
  push_back growth v t pf w
  = (BadAlloc,
     {| trace := trace w ++ [EvAlloc r 0];
        clock_reads := clock_reads w; alloc_calls := S (alloc_calls w) |}).
Proof.
  intros room r Hfull Hq. unfold push_back.
  destruct (Nat.ltb_spec (length (items v)) (capacity v)); [lia|].
  fold room. fold r. rewrite bind_unfold.
  unfold alloc_or_throw. rewrite bind_unfold. unfold alloc at 1. cbv beta iota zeta.
  rewrite Hq. reflexivity.
Qed.

(** What the loop of [n] turns has done when it ends with outcome [o],
    having put the events [body] on the trace: on success, the pointers of
    the vector are those of the objects constructed, which are those
    [new] returned, [n] of them, and the vector has given back every
    buffer it obtained but the one it holds; a failure is a request of
    the benchmark that the platform denied. *)
Definition loop_post (pf : platform) (n : nat) (v : vector) (body : list event)
    (o : outcome vector) : Prop :=
  match o with
  | Done v' =>
      items v' = items v ++ constructed body /\
      new_pointers body = constructed body /\
      length (constructed body) = n /\
      Forall (fun p => p <> 0) (constructed body) /\
      live v ++ vector_acquired body = vector_released body ++ live v'
  | BadAlloc =>
      exists body' r i,
        body = body' ++ [EvAlloc r 0] /\ heap_request r = true /\ allocate pf r i = 0
  | _ => False
  end.

Lemma live_grown q room l :
  room <> 0%nat -> live {| buffer := q; capacity := room; items := l |} = [q].
Proof. intros Hroom. unfold live. cbn. now destruct room. Qed.

(** One turn of the loop: [trades.push_back(new Trade{...})]. *)
Lemma heap_turn pf growth v w :
  exists o w' body,
    (t ← new_Trade; push_back growth v t) pf w = (o, w') /\
    trace w' = trace w ++ body /\ clock_reads w' = clock_reads w /\
    forallb allocation_event body = true /\
    loop_post pf 1 v body o.
Proof.
  rewrite bind_unfold.
  set (p := allocate pf (ReqNew (struct_size Trade_def)) (alloc_calls w)).
  destruct (Z.eq_dec p 0) as [Hp|Hp].
  - rewrite (new_Trade_denied pf w Hp).
    eexists _, _, [EvAlloc (ReqNew (struct_size Trade_def)) 0].
    split; [reflexivity|]. cbn [trace clock_reads].
    refine (conj eq_refl (conj eq_refl (conj eq_refl _))).
    exists [], (ReqNew (struct_size Trade_def)), (alloc_calls w). auto.
  - rewrite (new_Trade_granted pf w Hp). fold p.
    set (w1 := {| trace := trace w ++ new_events p;
                  clock_reads := clock_reads w; alloc_calls := S (alloc_calls w) |}).
    destruct (Nat.lt_ge_cases (length (items v)) (capacity v)) as [Hroom|Hfull].
    + rewrite (push_back_room growth v p pf w1 Hroom).
      eexists _, _, (new_events p). split; [reflexivity|].
      refine (conj eq_refl (conj eq_refl (conj eq_refl _))).
      cbn. rewrite !app_nil_r.
      refine (conj eq_refl (conj eq_refl (conj eq_refl (conj _ eq_refl)))).
      now constructor.
    + set (room := Nat.max (S (length (items v))) (growth (capacity v))).
      set (r := ReqVector (sizeof_pointer * Z.of_nat room)).
      set (q := allocate pf r (alloc_calls w1)).
      destruct (Z.eq_dec q 0) as [Hq|Hq].
      * rewrite (push_back_denied growth v p pf w1 Hfull Hq).
        eexists _, _, (new_events p ++ [EvAlloc r 0]). split; [reflexivity|].
        cbn [trace clock_reads w1]. rewrite <- app_assoc.
        refine (conj eq_refl (conj eq_refl (conj eq_refl _))).
        exists (new_events p), r, (alloc_calls w1). auto.
      * rewrite (push_back_granted growth v p pf w1 Hfull Hq). fold room r q.
        eexists _, _, (new_events p ++ EvAlloc r q :: map (EvRelease RelVector) (live v)).
        split; [reflexivity|].
        cbn [trace clock_reads w1]. rewrite <- app_assoc.
        destruct (vector_releases_read (live v))
          as (H1 & H2 & H3 & H4 & H5 & H6 & H7 & H8 & H9 & H10 & _).
        refine (conj eq_refl (conj eq_refl (conj _ _))).
        { cbn. exact H10. }
        unfold loop_post.
        rewrite live_grown by (unfold room; lia).
        change (new_events p ++ EvAlloc r q :: map (EvRelease RelVector) (live v))
          with ((new_events p ++ [EvAlloc r q]) ++ map (EvRelease RelVector) (live v)).
        rewrite constructed_app, new_pointers_app, vector_acquired_app,
          vector_released_app, H1, H4, H5, H6.
        clearbody q. unfold r. cbn. rewrite ?app_nil_r.
        refine (conj eq_refl (conj eq_refl (conj eq_refl (conj _ eq_refl)))).
        now constructor.
Qed.

(** The allocation loop, from any vector and any state of the world. *)
Lemma heap_loop pf growth n :
  forall start v w,
  exists o w' body,
    for_fold start n (fun _ trades => t ← new_Trade; push_back growth trades t) v pf w
    = (o, w') /\
    trace w' = trace w ++ body /\ clock_reads w' = clock_reads w /\
    forallb allocation_event body = true /\
    loop_post pf n v body o.
Proof.
  induction n as [|n IH]; intros start v w.
  - exists (Done v), w, []. cbn. rewrite !app_nil_r.
    refine (conj eq_refl (conj eq_refl (conj eq_refl (conj eq_refl _)))).
    refine (conj eq_refl (conj eq_refl (conj eq_refl (conj _ eq_refl)))).
    constructor.
  - cbn [for_fold]. rewrite bind_unfold.
    destruct (heap_turn pf growth v w) as (o1 & w1 & body1 & -> & Htr1 & Hck1 & Hev1 & Hpost1).
    destruct o1 as [v1| | |]; try contradiction.
    + destruct (IH (S start) v1 w1) as (o & w' & body2 & -> & Htr2 & Hck2 & Hev2 & Hpost2).
      exists o, w', (body1 ++ body2).
      split; [reflexivity|].
      split; [now rewrite Htr2, Htr1, app_assoc|].
      split; [congruence|].
      split; [now rewrite forallb_app, Hev1, Hev2|].
      destruct Hpost1 as (Hi1 & Hn1 & Hl1 & Hz1 & Hv1).
      destruct o as [v2| | |]; try contradiction.
      * destruct Hpost2 as (Hi2 & Hn2 & Hl2 & Hz2 & Hv2). unfold loop_post.
        rewrite constructed_app, new_pointers_app, vector_acquired_app, vector_released_app.
        refine (conj _ (conj _ (conj _ (conj _ _)))).
        -- now rewrite Hi2, Hi1, app_assoc.
        -- congruence.
        -- rewrite length_app. lia.
        -- apply Forall_app; auto.
        -- now rewrite app_assoc, Hv1, <- app_assoc, Hv2, app_assoc.
      * destruct Hpost2 as (body' & r & i & -> & Hr & Hdenied).
        exists (body1 ++ body'), r, i. now rewrite app_assoc.
    + exists BadAlloc, w1, body1. auto.
Qed.

Lemma delete_all pf l :
  forall w,
    for_list l delete_Trade pf w
    = (Done tt,
       {| trace := trace w ++ flat_map delete_events l;
          clock_reads := clock_reads w; alloc_calls := alloc_calls w |}).
Proof.
  induction l as [|t l IH]; intros w.
  - simpl. rewrite app_nil_r. now destruct w.
  - cbn [for_list]. rewrite bind_unfold. unfold delete_Trade.
    rewrite bind_unfold. unfold emit at 1 2.
    cbn [trace clock_reads alloc_calls]. rewrite IH.
    cbn [trace clock_reads alloc_calls flat_map]. now rewrite <- !app_assoc.
Qed.

(** How a run of the heap benchmark that put the events [tr] on the trace
    ended with outcome [o], when its clock readings are [t0] and [t1]:
    either a request of the allocation loop was denied and the run ended
    there, or the loop was followed by the [delete] of every pointer, the
    second clock reading, the print and the vector giving back the buffer
    it held. *)
Definition heap_run (pf : platform) (n : nat) (t0 t1 : Z) (o : outcome unit)
    (tr : list event) : Prop :=
  exists body,
    forallb allocation_event body = true /\
    ((o = BadAlloc /\ tr = EvClock t0 :: body /\
      exists body' r i,
        body = body' ++ [EvAlloc r 0] /\ heap_request r = true /\ allocate pf r i = 0) \/
     (o = Done tt /\
      exists last,
        tr = [EvClock t0] ++ body ++ flat_map delete_events (constructed body)
             ++ [EvClock t1;
                 EvOut "❌ Heap Allocation took: " [VInt (duration_ms (t1 - t0))]]
             ++ map (EvRelease RelVector) last /\
        new_pointers body = constructed body /\
        length (constructed body) = n /\
        Forall (fun p => p <> 0) (constructed body) /\
        vector_acquired body = vector_released body ++ last /\
        (length last <= 1)%nat)).

(** The heap benchmark from any state of the world. *)
Lemma heap_exec pf growth n w :
  exists o w' tr,
    heapAllocationBenchmark_with growth n pf w = (o, w') /\
    trace w' = trace w ++ tr /\
    (o = Done tt -> clock_reads w' = S (S (clock_reads w))) /\
    heap_run pf n (clock_now pf (clock_reads w)) (clock_now pf (S (clock_reads w))) o tr.
Proof.
  unfold heapAllocationBenchmark_with.
  rewrite bind_unfold. unfold now at 1. cbv beta iota zeta.
  rewrite bind_unfold.
  set (w0 := {| trace := trace w ++ [EvClock (clock_now pf (clock_reads w))];
                clock_reads := S (clock_reads w); alloc_calls := alloc_calls w |}).
  destruct (heap_loop pf growth n 0%nat empty_vector w0)
    as (o & w1 & body & -> & Htr & Hck & Hev & Hpost).
  destruct o as [v| | |]; try contradiction.
  - destruct Hpost as (Hitems & Hnew & Hlen & Hnz & Hvec).
    cbn [items empty_vector app] in Hitems. cbn [live empty_vector capacity Nat.eqb app] in Hvec.
    rewrite bind_unfold, delete_all, bind_unfold. unfold now at 1. cbv beta iota zeta.
    rewrite bind_unfold. unfold emit at 1. cbv beta iota zeta.
    rewrite vector_destroy_exec. cbn [trace clock_reads alloc_calls].
    rewrite Hck, Htr, Hitems. cbn [trace clock_reads w0].
    eexists (Done tt), _, _. split; [reflexivity|]. cbn [trace clock_reads].
    refine (conj _ (conj (fun _ => eq_refl) _)).
    + rewrite <- !app_assoc. reflexivity.
    + exists body. split; [exact Hev|]. right. split; [reflexivity|].
      exists (live v).
      refine (conj eq_refl (conj Hnew (conj Hlen (conj Hnz (conj Hvec _))))).
      unfold live. destruct (capacity v =? 0)%nat; simpl; lia.
  - eexists BadAlloc, w1, _. split; [reflexivity|].
    refine (conj _ (conj _ _)).
    + rewrite Htr. cbn [trace w0]. rewrite <- app_assoc. reflexivity.
    + discriminate.
    + exists body. split; [exact Hev|]. left. auto.
Qed.

(** The heap benchmark whose first [new] is denied. *)
Lemma heap_first_new_denied pf growth m w :
  allocate pf (ReqNew (struct_size Trade_def)) (alloc_calls w) = 0 ->
  heapAllocationBenchmark_with growth (S m) pf w
  = (BadAlloc,
     {| trace := trace w ++ [EvClock (clock_now pf (clock_reads w));
                             EvAlloc (ReqNew (struct_size Trade_def)) 0];
        clock_reads := S (clock_reads w); alloc_calls := S (alloc_calls w) |}).
Proof.
  intros Hdenied. unfold heapAllocationBenchmark_with.
  rewrite bind_unfold. unfold now at 1. cbv beta iota zeta.
  rewrite bind_unfold. cbn [for_fold]. rewrite !bind_unfold.
  rewrite new_Trade_denied by exact Hdenied.
  cbn [trace clock_reads alloc_calls]. now rewrite <- app_assoc.
Qed.

(** A run of the heap benchmark from the start. *)
Lemma heap_run_from_start pf growth n :
  heap_run pf n (clock_now pf 0) (clock_now pf 1)
    (fst (run (heapAllocationBenchmark_with growth n) pf))
    (snd (run (heapAllocationBenchmark_with growth n) pf)).
Proof.
  destruct (heap_exec pf growth n world0) as (o & w' & tr & Hexec & Htr & _ & Hrun).
  unfold run. rewrite Hexec. cbn [fst snd]. rewrite Htr. exact Hrun.
Qed.

(** On a platform that grants its requests the heap benchmark runs to its
    end. *)
Lemma heap_run_granted pf n t0 t1 o tr :
  grants pf -> heap_run pf n t0 t1 o tr -> o = Done tt.
Proof.
  intros Hgrants (body & _ & [(_ & _ & body' & r & i & _ & Hr & Hdenied) | (Ho & _)]).
  - now destruct (Hgrants r i Hr).
  - exact Ho.
Qed.

(** A run of the heap benchmark that got to its end, read event by
    event. *)
Lemma heap_done_read t0 t1 text vals body last :
  forallb allocation_event body = true ->
  let tr := [EvClock t0] ++ body ++ flat_map delete_events (constructed body)
            ++ [EvClock t1; EvOut text vals] ++ map (EvRelease RelVector) last in
  constructed tr = constructed body /\
  destroyed tr = constructed body /\
  deleted tr = constructed body /\
  new_pointers tr = new_pointers body /\
  vector_acquired tr = vector_acquired body /\
  vector_released tr = vector_released body ++ last /\
  clock_readings tr = [t0; t1] /\
  printed tr = [text] /\
  acquisitions tr = acquisitions body /\
  mallocs tr = [] /\ freed tr = [].
Proof.
  intros Hev tr. subst tr.
  destruct (allocation_events_only body Hev) as (Hd & Hdel & Hc & Hp & Hm & Hf & _).
  destruct (deletes_read (constructed body))
    as (D1 & D2 & D3 & D4 & D5 & D6 & D7 & D8 & D9 & D10 & D11).
  destruct (vector_releases_read last)
    as (V1 & V2 & V3 & V4 & V5 & V6 & V7 & V8 & V9 & _ & V11 & V12).
  rewrite !constructed_app, !destroyed_app, !deleted_app, !new_pointers_app,
    !vector_acquired_app, !vector_released_app, !clock_readings_app, !printed_app,
    !acquisitions_app, !mallocs_app, !freed_app.
  rewrite Hd, Hdel, Hc, Hp, Hm, Hf, D1, D2, D3, D4, D5, D6, D7, D8, D9, D10, D11,
    V1, V2, V3, V4, V5, V6, V7, V8, V9, V11, V12.
  cbn. rewrite ?app_nil_r. repeat split.
Qed.

(** A run of the heap benchmark that a denied request ended, read event
    by event. *)
Lemma heap_denied_read t0 body :
  forallb allocation_event body = true ->
  destroyed (EvClock t0 :: body) = [] /\
  deleted (EvClock t0 :: body) = [] /\
  clock_readings (EvClock t0 :: body) = [t0] /\
  printed (EvClock t0 :: body) = [] /\
  mallocs (EvClock t0 :: body) = [] /\
  freed (EvClock t0 :: body) = [].
Proof.
  intros Hev.
  destruct (allocation_events_only body Hev) as (Hd & Hdel & Hc & Hp & Hm & Hf & _).
  cbn. fold (clock_readings body). now rewrite Hc.
Qed.

(** X5: when the heap benchmark runs to its end, which it does on every
    platform that grants its requests, it has deleted exactly the pointers
    [new] returned, each once and in the order of allocation: [n]
    allocations, [n] constructions, [n] destructions and [n] releases by
    [delete], none of a null pointer. The vector of pointers has given back
    every buffer it obtained, in the order it obtained them, and the clock
    was read twice. *)
Theorem heap_deletes_what_it_allocates pf growth n :
  Z.of_nat n <= max_pointers ->
  let tr := snd (run (heapAllocationBenchmark_with growth n) pf) in
  (grants pf -> fst (run (heapAllocationBenchmark_with growth n) pf) = Done tt) /\
  (fst (run (heapAllocationBenchmark_with growth n) pf) = Done tt ->
   constructed tr = new_pointers tr /\
   destroyed tr = new_pointers tr /\
   deleted tr = new_pointers tr /\
   length (new_pointers tr) = n /\
   Forall (fun p => p <> 0) (new_pointers tr) /\
   vector_released tr = vector_acquired tr /\
   clock_readings tr = [clock_now pf 0; clock_now pf 1]).
Proof.
  intros _ tr. subst tr.
  pose proof (heap_run_from_start pf growth n) as Hrun. split.
  - intros Hgrants. exact (heap_run_granted pf n _ _ _ _ Hgrants Hrun).
  - intros Hdone.
    destruct Hrun as (body & Hev & [(Ho & _) | (_ & last & -> & Hnew & Hlen & Hnz & Hvec & _)]);
      [congruence|].
    destruct (heap_done_read (clock_now pf 0) (clock_now pf 1)
                "❌ Heap Allocation took: "
                [VInt (duration_ms (clock_now pf 1 - clock_now pf 0))] body last Hev)
      as (R1 & R2 & R3 & R4 & R5 & R6 & R7 & _).
    rewrite R1, R2, R3, R4, R5, R6, R7, Hnew, Hvec.
    repeat split; assumption.
Qed.

Lemma grants_generous : grants generous.
Proof.
  intros r i Hr. destruct r; try discriminate Hr;
    unfold generous, sample_pointer; cbn [allocate]; lia.
Qed.

Lemma heap_deletes_what_it_allocates_witness :
  fst (run (heapAllocationBenchmark_with doubling 3) generous) = Done tt /\
  deleted (snd (run (heapAllocationBenchmark_with doubling 3) generous))
  = [4096; 12288; 20480] /\
  vector_released (snd (run (heapAllocationBenchmark_with doubling 3) generous))
  = [8192; 16384; 24576].
Proof.
  destruct (heap_deletes_what_it_allocates generous doubling 3
              ltac:(vm_compute; discriminate)) as [Hdone Hread].
  destruct (Hread (Hdone grants_generous)) as (_ & _ & Hdel & _ & _ & Hvec & _).
  refine (conj (Hdone grants_generous) (conj _ _)).
  - rewrite Hdel. reflexivity.
  - rewrite Hvec. reflexivity.
Defined.

(** X6: when the heap benchmark ends by the uncaught [std::bad_alloc], the
    request it made last, of [new] or of the vector for a larger buffer,
    was denied; the objects allocated until then are never destroyed or
    deleted, the clock is not read a second time and nothing is printed.
    A first [new] that is denied ends the run at once; after a first [new]
    that is granted, a denied buffer for the vector ends it with the
    object constructed and lost. *)
Theorem heap_denied_leaks pf growth n m :
  Z.of_nat n <= max_pointers -> Z.of_nat (S m) <= max_pointers ->
  let tr := snd (run (heapAllocationBenchmark_with growth n) pf) in
  let new := ReqNew (struct_size Trade_def) in
  let room := ReqVector (sizeof_pointer * Z.of_nat (Nat.max 1 (growth 0%nat))) in
  (fst (run (heapAllocationBenchmark_with growth n) pf) = BadAlloc ->
   destroyed tr = [] /\ deleted tr = [] /\
   clock_readings tr = [clock_now pf 0] /\ printed tr = [] /\
   exists rest r,
     tr = EvClock (clock_now pf 0) :: rest ++ [EvAlloc r 0] /\ heap_request r = true) /\
  (allocate pf new 0 = 0 ->
   run (heapAllocationBenchmark_with growth (S m)) pf
   = (BadAlloc, [EvClock (clock_now pf 0); EvAlloc new 0])) /\
  (allocate pf new 0 <> 0 -> allocate pf room 1 = 0 ->
   run (heapAllocationBenchmark_with growth (S m)) pf
   = (BadAlloc,
      [EvClock (clock_now pf 0); EvAlloc new (allocate pf new 0);
       EvConstruct (allocate pf new 0); EvAlloc room 0])).
Proof.
  intros _ _ tr new room. subst tr. refine (conj _ (conj _ _)).
  - intros Hbad.
    destruct (heap_run_from_start pf growth n)
      as (body & Hev & [(_ & -> & body' & r & i & -> & Hr & _) | (Ho & _)]);
      [|congruence].
    destruct (heap_denied_read (clock_now pf 0) _ Hev) as (Hd & Hdel & Hc & Hp & _).
    refine (conj Hd (conj Hdel (conj Hc (conj Hp _)))).
    exists body', r. auto.
  - intros Hdenied.
    assert (Hexec : heapAllocationBenchmark_with growth (S m) pf world0
                    = (BadAlloc,
                       {| trace := [EvClock (clock_now pf 0); EvAlloc new 0];
                          clock_reads := 1; alloc_calls := 1 |})).
    { unfold heapAllocationBenchmark_with.
      rewrite bind_unfold. unfold now at 1. cbv beta iota zeta.
      rewrite bind_unfold. cbn [for_fold]. rewrite !bind_unfold.
      rewrite new_Trade_denied by exact Hdenied. reflexivity. }
    unfold run. now rewrite Hexec.
  - intros Hgranted Hdenied.
    assert (Hexec : heapAllocationBenchmark_with growth (S m) pf world0
                    = (BadAlloc,
                       {| trace := [EvClock (clock_now pf 0); EvAlloc new (allocate pf new 0);
                                    EvConstruct (allocate pf new 0); EvAlloc room 0];
                          clock_reads := 1; alloc_calls := 2 |})).
    { unfold heapAllocationBenchmark_with.
      rewrite bind_unfold. unfold now at 1. cbv beta iota zeta.
      rewrite bind_unfold. cbn [for_fold]. rewrite !bind_unfold.
      rewrite new_Trade_granted by exact Hgranted.
      rewrite push_back_denied; [reflexivity | cbn; lia | exact Hdenied]. }
    unfold run. now rewrite Hexec.
Qed.

Lemma heap_denied_leaks_witness :
  run (heapAllocationBenchmark_with doubling 3) (denying 1)
  = (BadAlloc, [EvClock 0; EvAlloc (ReqNew 24) 4096; EvConstruct 4096; EvAlloc (ReqVector 8) 0])
  /\ destroyed (snd (run (heapAllocationBenchmark_with doubling 3) (denying 3))) = []
  /\ run (heapAllocationBenchmark_with doubling 3) (denying 0)
     = (BadAlloc, [EvClock 0; EvAlloc (ReqNew 24) 0]).
Proof.
  assert (H0 : Z.of_nat 0 <= max_pointers) by (vm_compute; discriminate).
  assert (H1 : Z.of_nat 1 <= max_pointers) by (vm_compute; discriminate).
  assert (H3 : Z.of_nat 3 <= max_pointers) by (vm_compute; discriminate).
  refine (conj _ (conj _ _)).
  - refine (proj2 (proj2 (heap_denied_leaks (denying 1) doubling 0 2 H0 H3)) _ eq_refl).
    discriminate.
  - exact (proj1 (proj1 (heap_denied_leaks (denying 3) doubling 3 0 H3 H1) eq_refl)).
  - exact (proj1 (proj2 (heap_denied_leaks (denying 0) doubling 0 2 H0 H3)) eq_refl).
Defined.

(** ** The pool benchmark and its region *)

(** X7: the pool benchmark does not look at what [malloc] returns: with a
    null pointer and at least one object it faults at the first placement
    [new], before anything is constructed or released; with no object at
    all it runs to its end, null pointer or not. *)
Theorem pool_null_region pf m :
  (allocate pf (ReqMalloc (struct_size Trade_def * Z.of_nat (S m))) 0 = 0 ->
   run (poolAllocationBenchmark_with (S m)) pf
   = (Fault,
      [EvClock (clock_now pf 0);
       EvAlloc (ReqMalloc (struct_size Trade_def * Z.of_nat (S m))) 0])) /\
  run (poolAllocationBenchmark_with 0) pf
  = (Done tt,
     [EvClock (clock_now pf 0);
      EvAlloc (ReqMalloc 0) (allocate pf (ReqMalloc 0) 0);
      EvRelease RelFree (allocate pf (ReqMalloc 0) 0);
      EvClock (clock_now pf 1);
      EvOut "✅ Pool Allocation took: "
        [VInt (duration_ms (clock_now pf 1 - clock_now pf 0))]]).
Proof.
  split.
  - intros Hnull.
    assert (Hexec : poolAllocationBenchmark_with (S m) pf world0
                    = (Fault,
                       {| trace := [EvClock (clock_now pf 0);
                                    EvAlloc (ReqMalloc (struct_size Trade_def
                                                        * Z.of_nat (S m))) 0];
                          clock_reads := 1; alloc_calls := 1 |})).
    { unfold poolAllocationBenchmark_with.
      rewrite bind_unfold. unfold now at 1. cbv beta iota zeta.
      rewrite bind_unfold. unfold alloc at 1. cbv beta iota zeta.
      cbn [alloc_calls world0 trace clock_reads]. rewrite Hnull.
      rewrite bind_unfold. cbn [for_each]. rewrite bind_unfold.
      unfold placement_new at 1. reflexivity. }
    unfold run. now rewrite Hexec.
  - reflexivity.
Qed.

Lemma pool_null_region_witness :
  run (poolAllocationBenchmark_with 2) (denying 0)
  = (Fault, [EvClock 0; EvAlloc (ReqMalloc 48) 0]).
Proof. exact (proj1 (pool_null_region (denying 0) 1) eq_refl). Defined.

(** X8: every object the pool benchmark constructs lies inside the region
    it obtained from [malloc], at a multiple of 8 when the region starts at
    one (the alignment of [Trade]), and two objects never overlap. *)
Theorem pool_slots_in_region pf n :
  let bytes := struct_size Trade_def * Z.of_nat n in
  let memory := allocate pf (ReqMalloc bytes) 0 in
  memory <> 0 ->
  (forall p, In p (constructed (snd (run (poolAllocationBenchmark_with n) pf))) ->
     memory <= p /\ p + struct_size Trade_def <= memory + bytes /\
     (memory mod struct_align Trade_def = 0 -> p mod struct_align Trade_def = 0)) /\
  (forall i j, (i < j)%nat -> slot memory i + struct_size Trade_def <= slot memory j).
Proof.
  intros bytes memory Hmem. split.
  - rewrite (pool_run pf n Hmem). cbn [snd]. fold bytes. fold memory.
    rewrite !constructed_app, constructed_constructs, constructed_destroys.
    cbn [constructed app]. rewrite app_nil_r.
    intros p Hin. apply in_map_iff in Hin as (i & <- & Hi). apply in_seq in Hi.
    unfold slot, bytes. change (struct_size Trade_def) with 24.
    change (struct_align Trade_def) with 8.
    split; [lia|]. split; [lia|].
    intros Hal. rewrite Z.add_mod, Hal by lia.
    replace (Z.of_nat i * 24) with (Z.of_nat i * 3 * 8) by lia.
    now rewrite Z_mod_mult.
  - intros i j Hij. unfold slot. change (struct_size Trade_def) with 24. lia.
Qed.

Lemma pool_slots_in_region_witness :
  In 4120 (constructed (snd (run (poolAllocationBenchmark_with 3) generous))) /\
  4096 <= 4120 /\ 4120 + 24 <= 4096 + 72.
Proof.
  assert (Hin : In 4120 (constructed (snd (run (poolAllocationBenchmark_with 3) generous))))
    by (right; left; reflexivity).
  destruct (proj1 (pool_slots_in_region generous 3 ltac:(discriminate)) 4120 Hin)
    as (Hlo & Hhi & _).
  exact (conj Hin (conj Hlo Hhi)).
Defined.

(** ** [main]: the heap benchmark, then the pool benchmark *)

(** The pool benchmark from any state of the world, its region granted. *)
Lemma pool_exec pf w n :
  let req := ReqMalloc (struct_size Trade_def * Z.of_nat n) in
  let memory := allocate pf req (alloc_calls w) in
  memory <> 0 ->
  poolAllocationBenchmark_with n pf w
  = (Done tt,
     {| trace := trace w
                 ++ [EvClock (clock_now pf (clock_reads w)); EvAlloc req memory]
                 ++ map (fun i => EvConstruct (slot memory i)) (seq 0 n)
                 ++ map (fun i => EvDestroy (slot memory i)) (seq 0 n)
                 ++ [EvRelease RelFree memory; EvClock (clock_now pf (S (clock_reads w)));
                     EvOut "✅ Pool Allocation took: "
                       [VInt (duration_ms (clock_now pf (S (clock_reads w))
                                           - clock_now pf (clock_reads w)))]];
        clock_reads := S (S (clock_reads w));
        alloc_calls := S (alloc_calls w) |}).
Proof.
  intros req memory Hmem. unfold poolAllocationBenchmark_with.
  rewrite bind_unfold. unfold now at 1. cbv beta iota zeta.
  rewrite bind_unfold. unfold alloc at 1. cbv beta iota zeta.
  cbn [trace clock_reads alloc_calls]. fold req. fold memory.
  rewrite bind_unfold.
  rewrite (for_each_emits _ (fun i => EvConstruct (slot memory i))).
  2:{ intros i pf' w'. unfold placement_new.
      destruct (Z.eqb_spec memory 0); [contradiction | reflexivity]. }
  rewrite bind_unfold.
  rewrite (for_each_emits _ (fun i => EvDestroy (slot memory i))) by reflexivity.
  cbv [mbind prog_bind emit now trace clock_reads alloc_calls].
  f_equal. f_equal. rewrite <- !app_assoc. reflexivity.
Qed.

(** The pool benchmark from any state of the world, its region the null
    pointer. *)
Lemma pool_exec_null pf w n :
  let req := ReqMalloc (struct_size Trade_def * Z.of_nat n) in
  allocate pf req (alloc_calls w) = 0 ->
  exists o w' tr,
    poolAllocationBenchmark_with n pf w = (o, w') /\ trace w' = trace w ++ tr /\
    (o = Done tt \/ o = Fault).
Proof.
  intros req Hnull. unfold poolAllocationBenchmark_with.
  rewrite bind_unfold. unfold now at 1. cbv beta iota zeta.
  rewrite bind_unfold. unfold alloc at 1. cbv beta iota zeta.
  cbn [trace clock_reads alloc_calls]. fold req. rewrite Hnull.
  destruct n as [|n].
  - eexists (Done tt), _, _. split; [reflexivity|].
    cbn [trace]. split; [|now left]. rewrite <- !app_assoc. reflexivity.
  - rewrite bind_unfold. cbn [for_each]. rewrite bind_unfold.
    unfold placement_new at 1. cbn [Z.eqb raise].
    eexists Fault, _, _. split; [reflexivity|].
    cbn [trace]. split; [|now right]. rewrite <- !app_assoc. reflexivity.
Qed.

(** [main], for [n] objects. *)
Definition main_with (growth : nat -> nat) (n : nat) : Prog Z :=
  emit (EvOut "🚀 Comparing Heap vs Memory Pool Allocation..." []);;
  heapAllocationBenchmark_with growth n;;
  poolAllocationBenchmark_with n;;
  mret 0.

(** A run of the pool benchmark that got to its end, read event by
    event. *)
Lemma pool_done_read t0 t1 text vals req memory n :
  let tr := [EvClock t0; EvAlloc (ReqMalloc req) memory]
            ++ map (fun i => EvConstruct (slot memory i)) (seq 0 n)
            ++ map (fun i => EvDestroy (slot memory i)) (seq 0 n)
            ++ [EvRelease RelFree memory; EvClock t1; EvOut text vals] in
  deleted tr = [] /\ new_pointers tr = [] /\
  vector_acquired tr = [] /\ vector_released tr = [] /\
  clock_readings tr = [t0; t1] /\ printed tr = [text] /\
  mallocs tr = [memory] /\ freed tr = [memory].
Proof.
  intros tr. subst tr.
  rewrite !deleted_app, !new_pointers_app, !vector_acquired_app, !vector_released_app,
    !clock_readings_app, !printed_app, !mallocs_app, !freed_app.
  unfold deleted, new_pointers, vector_acquired, vector_released, clock_readings,
    printed, mallocs, freed.
  rewrite !omap_map_none by reflexivity. cbn. repeat split.
Qed.

(** X9: [main] runs the heap benchmark and then the pool benchmark. On a
    platform that grants every request it returns 0, having deleted every
    pointer [new] returned, the vector having given back every buffer it
    obtained, and having freed the one region it obtained from [malloc];
    the clock is read four times and three lines are printed. When [main]
    ends by the uncaught [std::bad_alloc] the pool benchmark never ran: no
    [malloc], no [free], and nothing was deleted; a first [new] that is
    denied ends the program after the first clock reading. *)
Theorem heap_then_pool pf growth n m :
  Z.of_nat n <= max_pointers -> Z.of_nat (S m) <= max_pointers ->
  let tr := snd (run (main_with growth n) pf) in
  let hello := "🚀 Comparing Heap vs Memory Pool Allocation..."%string in
  main growth = main_with growth (Z.to_nat NUM_OBJECTS) /\
  (grants pf -> (forall size i, allocate pf (ReqMalloc size) i <> 0) ->
   fst (run (main_with growth n) pf) = Done 0 /\
   deleted tr = new_pointers tr /\
   length (new_pointers tr) = n /\
   vector_released tr = vector_acquired tr /\
   (exists region, region <> 0 /\ mallocs tr = [region] /\ freed tr = [region]) /\
   clock_readings tr = [clock_now pf 0; clock_now pf 1; clock_now pf 2; clock_now pf 3] /\
   printed tr = [hello; "❌ Heap Allocation took: "%string;
                 "✅ Pool Allocation took: "%string]) /\
  (fst (run (main_with growth n) pf) = BadAlloc ->
   mallocs tr = [] /\ freed tr = [] /\ deleted tr = [] /\
   printed tr = [hello] /\ clock_readings tr = [clock_now pf 0]) /\
  (allocate pf (ReqNew (struct_size Trade_def)) 0 = 0 ->
   run (main_with growth (S m)) pf
   = (BadAlloc,
      [EvOut hello []; EvClock (clock_now pf 0);
       EvAlloc (ReqNew (struct_size Trade_def)) 0])).
Proof.
  intros _ _ tr hello. subst tr. split; [reflexivity|].
  set (w0 := {| trace := [EvOut hello []]; clock_reads := 0; alloc_calls := 0 |}).
  assert (Hstart : forall k,
            main_with growth k pf world0
            = match heapAllocationBenchmark_with growth k pf w0 with
              | (Done _, w1) =>
                  match poolAllocationBenchmark_with k pf w1 with
                  | (Done _, w2) => (Done 0, w2)
                  | (BadAlloc, w2) => (BadAlloc, w2)
                  | (AssertFailed msg, w2) => (AssertFailed msg, w2)
                  | (Fault, w2) => (Fault, w2)
                  end
              | (BadAlloc, w1) => (BadAlloc, w1)
              | (AssertFailed msg, w1) => (AssertFailed msg, w1)
              | (Fault, w1) => (Fault, w1)
              end).
  { intros k. unfold main_with. rewrite bind_unfold. unfold emit at 1. cbv beta iota zeta.
    rewrite bind_unfold. fold hello. change (trace world0 ++ [EvOut hello []]) with (trace w0).
    change {| trace := trace w0; clock_reads := clock_reads world0;
              alloc_calls := alloc_calls world0 |} with w0.
    destruct (heapAllocationBenchmark_with growth k pf w0) as [[[]| | |] w1]; reflexivity. }
  destruct (heap_exec pf growth n w0) as (o & w1 & htr & Hheap & Htr1 & Hck & Hrun).
  cbn [clock_reads w0] in Hrun, Hck. cbn [trace w0] in Htr1.
  refine (conj _ (conj _ _)).
  - intros Hgrants Hmalloc.
    pose proof (heap_run_granted pf n _ _ _ _ Hgrants Hrun) as ->.
    specialize (Hck eq_refl).
    destruct Hrun as (body & Hev & [(Ho & _) | (_ & last & Hhtr & Hnew & Hlen & _ & Hvec & _)]);
      [discriminate|].
    unfold run. rewrite Hstart, Hheap.
    pose proof (pool_exec pf w1 n (Hmalloc _ _)) as Hpool. cbv zeta in Hpool.
    rewrite Hpool, Hck, Htr1. cbn [fst snd trace].
    set (region := allocate pf (ReqMalloc (struct_size Trade_def * Z.of_nat n))
                     (alloc_calls w1)).
    destruct (heap_done_read (clock_now pf 0) (clock_now pf 1)
                "❌ Heap Allocation took: "
                [VInt (duration_ms (clock_now pf 1 - clock_now pf 0))] body last Hev)
      as (_ & _ & R3 & R4 & R5 & R6 & R7 & R8 & _ & R10 & R11).
    rewrite <- Hhtr in R3, R4, R5, R6, R7, R8, R10, R11.
    destruct (pool_done_read (clock_now pf 2) (clock_now pf 3)
                "✅ Pool Allocation took: "
                [VInt (duration_ms (clock_now pf 3 - clock_now pf 2))]
                (struct_size Trade_def * Z.of_nat n) region n)
      as (P1 & P2 & P3 & P4 & P5 & P6 & P7 & P8).
    set (ptr := [EvClock (clock_now pf 2);
                 EvAlloc (ReqMalloc (struct_size Trade_def * Z.of_nat n)) region]
                ++ map (fun i => EvConstruct (slot region i)) (seq 0 n)
                ++ map (fun i => EvDestroy (slot region i)) (seq 0 n)
                ++ [EvRelease RelFree region; EvClock (clock_now pf 3);
                    EvOut "✅ Pool Allocation took: "
                      [VInt (duration_ms (clock_now pf 3 - clock_now pf 2))]]) in *.
    clearbody ptr.
    rewrite !deleted_app, !new_pointers_app, !vector_acquired_app, !vector_released_app,
      !clock_readings_app, !printed_app, !mallocs_app, !freed_app.
    rewrite R3, R4, R5, R6, R7, R8, R10, R11, P1, P2, P3, P4, P5, P6, P7, P8, Hnew, Hvec.
    cbn. rewrite ?app_nil_r.
    refine (conj eq_refl (conj eq_refl (conj Hlen (conj eq_refl (conj _ (conj eq_refl eq_refl)))))).
    exists region. split; [apply Hmalloc | auto].
  - unfold run. rewrite Hstart, Hheap.
    destruct Hrun as (body & Hev & [(-> & Hhtr & _) | (-> & _)]).
    + cbn [fst snd]. intros _. rewrite Htr1, Hhtr.
      destruct (heap_denied_read (clock_now pf 0) body Hev) as (_ & Hdel & Hc & Hp & Hm & Hf).
      rewrite mallocs_app, freed_app, deleted_app, printed_app, clock_readings_app,
        Hdel, Hc, Hp, Hm, Hf.
      repeat split.
    + destruct (Z.eq_dec (allocate pf (ReqMalloc (struct_size Trade_def * Z.of_nat n))
                            (alloc_calls w1)) 0) as [Hnull|Hmem].
      * destruct (pool_exec_null pf w1 n Hnull) as (o' & w2 & ptr & -> & _ & [-> | ->]);
          discriminate.
      * pose proof (pool_exec pf w1 n Hmem) as Hpool. cbv zeta in Hpool.
        rewrite Hpool. discriminate.
  - intros Hdenied. unfold run. rewrite Hstart.
    rewrite (heap_first_new_denied pf growth m w0) by exact Hdenied.
    reflexivity.
Qed.

Lemma malloc_generous size i : allocate generous (ReqMalloc size) i <> 0.
Proof. unfold generous, sample_pointer; cbn [allocate]; lia. Qed.

Lemma heap_then_pool_witness :
  fst (run (main_with doubling 2) generous) = Done 0
  /\ deleted (snd (run (main_with doubling 2) generous)) = [4096; 12288]
  /\ fst (run (main_with doubling 2) (denying 1)) = BadAlloc
  /\ mallocs (snd (run (main_with doubling 2) (denying 1))) = [].
Proof.
  assert (H1 : Z.of_nat 1 <= max_pointers) by (vm_compute; discriminate).
  assert (H2 : Z.of_nat 2 <= max_pointers) by (vm_compute; discriminate).
  destruct (proj1 (proj2 (heap_then_pool generous doubling 2 0 H2 H1))
              grants_generous malloc_generous) as (Hdone & Hdel & _).
  destruct (proj1 (proj2 (proj2 (heap_then_pool (denying 1) doubling 2 0 H2 H1))) eq_refl)
    as (Hmallocs & _).
  refine (conj Hdone (conj _ (conj eq_refl Hmallocs))).
  rewrite Hdel. reflexivity.
Defined.

End HeapVsPool.

(* ===================================================================== *)
(** * soa_vs_aos/soa_vs_aos.cpp *)
(* ===================================================================== *)

Module SoaVsAos.
Import Layout.

Definition NUM_PARTICLES : Z := 100000000.

(** [float]: IEEE binary32 (24 bits of precision, exponents below 128). *)
Definition float32 : Type := spec_float.
Definition f32_add (a b : float32) : float32 := SFadd 24 128 a b.
Definition f32_zero : float32 := S754_zero false.

(** [struct ParticleAoS { float x, y, z; };] *)
Record ParticleAoS := { x : float32; y : float32; z : float32 }.

Definition ParticleAoS_def : struct_def :=
  {| alignas := None;
     members := [("x"%string, Tfloat); ("y"%string, Tfloat); ("z"%string, Tfloat)] |}.

(** [struct ParticlesSoA { std::vector<float> x, y, z; ... };] *)
Record ParticlesSoA := { xs : list float32; ys : list float32; zs : list float32 }.

(** The constructor [ParticlesSoA(size_t n)]: three [resize(n)] of empty
    vectors, which value-initialise the new elements. *)
Definition ParticlesSoA_new (n : nat) : ParticlesSoA :=
  {| xs := replicate n f32_zero; ys := replicate n f32_zero; zs := replicate n f32_zero |}.

(** [std::vector<ParticleAoS> particles(n)]: [n] value-initialised
    elements. *)
Definition zero_particle : ParticleAoS := {| x := f32_zero; y := f32_zero; z := f32_zero |}.
Definition ParticlesAoS_new (n : nat) : list ParticleAoS := replicate n zero_particle.

(** The loop of [runAoSBenchmark]: [sum += particles[i].x]. *)
Definition aos_scan (particles : list ParticleAoS) (n : nat) : option float32 :=
  for_range 0 n (fun i sum => p ← particles !! i; Some (f32_add sum (x p))) f32_zero.

(** The loop of [runSoABenchmark]: [sum += particles.x[i]]. *)
Definition soa_scan (particles : ParticlesSoA) (n : nat) : option float32 :=
  for_range 0 n (fun i sum => v ← xs particles !! i; Some (f32_add sum v)) f32_zero.

(** The storage of a [std::vector] of [count] elements of [elem] bytes
    each, for counts within the vector's [max_size]: a vector of no
    elements asks for no storage and has none to give back. *)
Definition vector_storage (elem : Z) (count : nat) : Prog Z :=
  if (count =? 0)%nat then mret 0
  else alloc_or_throw (ReqVector (elem * Z.of_nat count)).

Definition vector_release (count : nat) (storage : Z) : Prog unit :=
  if (count =? 0)%nat then mret tt else emit (EvRelease RelVector storage).

Definition runAoSBenchmark_with (n : nat) : Prog unit :=
  storage ← vector_storage (struct_size ParticleAoS_def) n;
  let particles := ParticlesAoS_new n in
  start ← now;
  sum ← pattern "AoS read" (aos_scan particles n);
  end_ ← now;
  let ms := duration_ms (end_ - start) in
  emit (EvOut "❌ AoS read took: " [VInt ms; VFloat sum]);;
  vector_release n storage.

Definition runSoABenchmark_with (n : nat) : Prog unit :=
  storage_x ← vector_storage (sizeof Tfloat) n;
  storage_y ← vector_storage (sizeof Tfloat) n;
  storage_z ← vector_storage (sizeof Tfloat) n;
  let particles := ParticlesSoA_new n in
  start ← now;
  sum ← pattern "SoA read" (soa_scan particles n);
  end_ ← now;
  let ms := duration_ms (end_ - start) in
  emit (EvOut "✅ SoA read took: " [VInt ms; VFloat sum]);;
  vector_release n storage_z;;
  vector_release n storage_y;;
  vector_release n storage_x.

Definition runAoSBenchmark : Prog unit := runAoSBenchmark_with (Z.to_nat NUM_PARTICLES).
Definition runSoABenchmark : Prog unit := runSoABenchmark_with (Z.to_nat NUM_PARTICLES).

Definition main : Prog Z :=
  emit (EvOut "🔍 Benchmarking AoS vs SoA..." []);;
  runAoSBenchmark;;
  runSoABenchmark;;
  mret 0.

(** The two layouts hold logically identical data: the same count of
    elements with the same field values. *)
Definition same_data (aos : list ParticleAoS) (soa : ParticlesSoA) : Prop :=
  xs soa = map x aos /\ ys soa = map y aos /\ zs soa = map z aos.

Lemma same_data_new n : same_data (ParticlesAoS_new n) (ParticlesSoA_new n).
Proof.
  unfold same_data, ParticlesAoS_new, ParticlesSoA_new. simpl.
  repeat split; induction n as [|n IH]; simpl; congruence.
Qed.

Lemma aos_scan_total (aos : list ParticleAoS) n :
  (n <= length aos)%nat -> exists sum, aos_scan aos n = Some sum.
Proof.
  intros Hlen. unfold aos_scan.
  destruct (for_range_inv (fun _ _ => True)
              (fun i sum => p ← aos !! i; Some (f32_add sum (x p))) n 0 f32_zero I)
    as (sum & Hsum & _).
  - intros i t Hi _.
    destruct (lookup_lt_is_Some_2 aos i) as [p Hp]; [lia|].
    rewrite Hp. simpl. eauto.
  - eauto.
Qed.

Lemma aos_scan_zero n : aos_scan (ParticlesAoS_new n) n = Some f32_zero.
Proof.
  unfold aos_scan.
  destruct (for_range_inv (fun _ t => t = f32_zero)
              (fun i sum => p ← ParticlesAoS_new n !! i; Some (f32_add sum (x p)))
              n 0 f32_zero eq_refl) as (sum & -> & ->); [|reflexivity].
  intros i t Hi ->. unfold ParticlesAoS_new.
  rewrite lookup_replicate_2 by lia. simpl. eauto.
Qed.

(** C2: over logically identical data (the same count of elements holding
    the same field values) the element-major scan and the field-major scan
    produce the same accumulator, bit for bit in binary32; the
    value-initialised data of the program is logically identical, and both
    sums are then the float zero. *)
Theorem aos_soa_same_accumulator (aos : list ParticleAoS) (soa : ParticlesSoA) (n : nat) :
  length aos = n -> same_data aos soa ->
  aos_scan aos n = soa_scan soa n /\
  (exists sum, aos_scan aos n = Some sum /\ soa_scan soa n = Some sum) /\
  same_data (ParticlesAoS_new n) (ParticlesSoA_new n) /\
  aos_scan (ParticlesAoS_new n) n = Some f32_zero /\
  soa_scan (ParticlesSoA_new n) n = Some f32_zero.
Proof.
  intros Hlen (Hx & _ & _).
  assert (Heq : forall (a : list ParticleAoS) (s : ParticlesSoA) k,
             xs s = map x a -> aos_scan a k = soa_scan s k).
  { intros a s k Hxs. unfold aos_scan, soa_scan. apply for_range_ext.
    intros i sum _. rewrite Hxs.
    change (map x a) with (x <$> a). rewrite list_lookup_fmap.
    now destruct (a !! i). }
  split; [now apply Heq|]. split.
  - destruct (aos_scan_total aos n ltac:(lia)) as [sum Hsum].
    exists sum. split; [exact Hsum|]. rewrite <- (Heq aos soa n Hx). exact Hsum.
  - split; [apply same_data_new|]. split; [apply aos_scan_zero|].
    rewrite <- (Heq (ParticlesAoS_new n) (ParticlesSoA_new n) n).
    + apply aos_scan_zero.
    + apply same_data_new.
Qed.

Definition f32_one : float32 := S754_finite false 8388608 (-23).
Definition f32_small : float32 := S754_finite false 8388608 (-60).

Lemma aos_soa_same_accumulator_witness :
  aos_scan [ {| x := f32_one; y := f32_small; z := f32_zero |};
             {| x := f32_small; y := f32_one; z := f32_one |};
             {| x := f32_one; y := f32_one; z := f32_small |} ] 3
  = soa_scan {| xs := [f32_one; f32_small; f32_one];
                ys := [f32_small; f32_one; f32_one];
                zs := [f32_zero; f32_one; f32_small] |} 3.
Proof.
  refine (proj1 (aos_soa_same_accumulator
                   [ {| x := f32_one; y := f32_small; z := f32_zero |};
                     {| x := f32_small; y := f32_one; z := f32_one |};
                     {| x := f32_one; y := f32_one; z := f32_small |} ]
                   {| xs := [f32_one; f32_small; f32_one];
                      ys := [f32_small; f32_one; f32_one];
                      zs := [f32_zero; f32_one; f32_small] |}
                   3 eq_refl _)).
  repeat split.
Defined.

(** ** The scans as folds *)

Lemma soa_scan_zero n : soa_scan (ParticlesSoA_new n) n = Some f32_zero.
Proof.
  unfold soa_scan.
  destruct (for_range_inv (fun _ t => t = f32_zero)
              (fun i sum => v ← xs (ParticlesSoA_new n) !! i; Some (f32_add sum v))
              n 0 f32_zero eq_refl) as (sum & -> & ->); [|reflexivity].
  intros i t Hi ->. unfold ParticlesSoA_new. cbn [xs].
  rewrite lookup_replicate_2 by lia. simpl. eauto.
Qed.

Lemma fold_left_map_x (l : list ParticleAoS) (s : float32) :
  fold_left (fun t p => f32_add t (x p)) l s = fold_left f32_add (map x l) s.
Proof. revert s. induction l as [|p l IH]; intros s; simpl; [reflexivity | apply IH]. Qed.

(** X10: each scan is the left fold of binary32 addition, from zero, over
    the [x] values of the first [n] elements in index order (the [y] and
    [z] values play no part); asked for more elements than there are, it
    reads past the end. *)
Theorem scans_are_folds (aos : list ParticleAoS) (soa : ParticlesSoA) (n : nat) :
  ((n <= length aos)%nat ->
   aos_scan aos n = Some (fold_left f32_add (map x (take n aos)) f32_zero)) /\
  ((length aos < n)%nat -> aos_scan aos n = None) /\
  ((n <= length (xs soa))%nat ->
   soa_scan soa n = Some (fold_left f32_add (take n (xs soa)) f32_zero)) /\
  ((length (xs soa) < n)%nat -> soa_scan soa n = None).
Proof.
  unfold aos_scan, soa_scan. refine (conj _ (conj _ (conj _ _))); intros Hn.
  - rewrite (for_range_fold aos (fun t p => f32_add t (x p))) by exact Hn.
    now rewrite fold_left_map_x.
  - now apply (for_range_past_end aos (fun t p => f32_add t (x p))).
  - now apply (for_range_fold (xs soa) f32_add).
  - now apply (for_range_past_end (xs soa) f32_add).
Qed.

Lemma scans_are_folds_witness :
  aos_scan [ {| x := f32_one; y := f32_small; z := f32_zero |};
             {| x := f32_one; y := f32_one; z := f32_one |} ] 2
  = Some (S754_finite false 8388608 (-22))
  /\ soa_scan {| xs := [f32_one]; ys := []; zs := [] |} 2 = None.
Proof.
  split.
  - refine (eq_trans (proj1 (scans_are_folds
              [ {| x := f32_one; y := f32_small; z := f32_zero |};
                {| x := f32_one; y := f32_one; z := f32_one |} ]
              (ParticlesSoA_new 0) 2) _) _).
    + simpl. lia.
    + reflexivity.
  - refine (proj2 (proj2 (proj2 (scans_are_folds [] {| xs := [f32_one]; ys := []; zs := [] |} 2))) _).
    simpl. lia.
Defined.

(** ** The two benchmark functions *)

(** X11: for a count greater than 0 (and within what a vector can hold),
    when their vectors are granted [runAoSBenchmark] and [runSoABenchmark]
    acquire before the first clock reading and release after the second
    (the one vector of the first, the three vectors of the second in
    reverse order of construction), and print the same sum, the float
    zero; when the first vector is denied they end by the uncaught
    [std::bad_alloc] before the clock is read. For the count 0 no storage
    is asked for or given back, and both run to their ends on every
    platform, printing the float zero. *)
Theorem benchmarks_print_the_same_sum pf n :
  struct_size ParticleAoS_def * Z.of_nat n <= PTRDIFF_MAX ->
  let a := allocate pf (ReqVector (struct_size ParticleAoS_def * Z.of_nat n)) 0 in
  let vx := allocate pf (ReqVector (sizeof Tfloat * Z.of_nat n)) 0 in
  let vy := allocate pf (ReqVector (sizeof Tfloat * Z.of_nat n)) 1 in
  let vz := allocate pf (ReqVector (sizeof Tfloat * Z.of_nat n)) 2 in
  let d := duration_ms (clock_now pf 1 - clock_now pf 0) in
  (n <> 0%nat -> a <> 0 ->
   run (runAoSBenchmark_with n) pf
   = (Done tt,
      [EvAlloc (ReqVector (struct_size ParticleAoS_def * Z.of_nat n)) a;
       EvClock (clock_now pf 0); EvPattern "AoS read"; EvClock (clock_now pf 1);
       EvOut "❌ AoS read took: " [VInt d; VFloat f32_zero];
       EvRelease RelVector a])) /\
  (n <> 0%nat -> vx <> 0 -> vy <> 0 -> vz <> 0 ->
   run (runSoABenchmark_with n) pf
   = (Done tt,
      [EvAlloc (ReqVector (sizeof Tfloat * Z.of_nat n)) vx;
       EvAlloc (ReqVector (sizeof Tfloat * Z.of_nat n)) vy;
       EvAlloc (ReqVector (sizeof Tfloat * Z.of_nat n)) vz;
       EvClock (clock_now pf 0); EvPattern "SoA read"; EvClock (clock_now pf 1);
       EvOut "✅ SoA read took: " [VInt d; VFloat f32_zero];
       EvRelease RelVector vz; EvRelease RelVector vy; EvRelease RelVector vx])) /\
  (n <> 0%nat -> a = 0 ->
   run (runAoSBenchmark_with n) pf
   = (BadAlloc, [EvAlloc (ReqVector (struct_size ParticleAoS_def * Z.of_nat n)) 0])) /\
  (n <> 0%nat -> vx = 0 ->
   run (runSoABenchmark_with n) pf
   = (BadAlloc, [EvAlloc (ReqVector (sizeof Tfloat * Z.of_nat n)) 0])) /\
  run (runAoSBenchmark_with 0) pf
  = (Done tt,
     [EvClock (clock_now pf 0); EvPattern "AoS read"; EvClock (clock_now pf 1);
      EvOut "❌ AoS read took: " [VInt d; VFloat f32_zero]]) /\
  run (runSoABenchmark_with 0) pf
  = (Done tt,
     [EvClock (clock_now pf 0); EvPattern "SoA read"; EvClock (clock_now pf 1);
      EvOut "✅ SoA read took: " [VInt d; VFloat f32_zero]]).
Proof.
  intros _ a vx vy vz d.
  assert (Hpos : forall k, k <> 0%nat -> (k =? 0)%nat = false)
    by (intros k Hk; now apply Nat.eqb_neq).
  refine (conj _ (conj _ (conj _ (conj _ (conj _ _))))).
  - intros Hn Ha.
    unfold run, runAoSBenchmark_with, vector_storage, vector_release, alloc_or_throw, pattern.
    rewrite (Hpos n Hn).
    cbv [mbind prog_bind mret prog_ret emit alloc now raise world0
         trace clock_reads alloc_calls app].
    fold a. destruct (Z.eqb_spec a 0); [contradiction|].
    rewrite aos_scan_zero. reflexivity.
  - intros Hn Hx Hy Hz.
    unfold run, runSoABenchmark_with, vector_storage, vector_release, alloc_or_throw, pattern.
    rewrite (Hpos n Hn).
    cbv [mbind prog_bind mret prog_ret emit alloc now raise world0
         trace clock_reads alloc_calls app].
    fold vx. destruct (Z.eqb_spec vx 0); [contradiction|].
    cbv beta iota. fold vy. destruct (Z.eqb_spec vy 0); [contradiction|].
    cbv beta iota. fold vz. destruct (Z.eqb_spec vz 0); [contradiction|].
    rewrite soa_scan_zero. reflexivity.
  - intros Hn Ha.
    unfold run, runAoSBenchmark_with, vector_storage, vector_release, alloc_or_throw.
    rewrite (Hpos n Hn).
    cbv [mbind prog_bind mret prog_ret emit alloc now raise world0
         trace clock_reads alloc_calls app].
    fold a. rewrite Ha. reflexivity.
  - intros Hn Hx.
    unfold run, runSoABenchmark_with, vector_storage, vector_release, alloc_or_throw.
    rewrite (Hpos n Hn).
    cbv [mbind prog_bind mret prog_ret emit alloc now raise world0
         trace clock_reads alloc_calls app].
    fold vx. rewrite Hx. reflexivity.
  - reflexivity.
  - reflexivity.
Qed.

Lemma benchmarks_print_the_same_sum_witness :
  run (runSoABenchmark_with 3) generous
  = (Done tt,
     [EvAlloc (ReqVector 12) 4096; EvAlloc (ReqVector 12) 8192; EvAlloc (ReqVector 12) 12288;
      EvClock 0; EvPattern "SoA read"; EvClock 3000000;
      EvOut "✅ SoA read took: " [VInt 3; VFloat f32_zero];
      EvRelease RelVector 12288; EvRelease RelVector 8192; EvRelease RelVector 4096])
  /\ run (runAoSBenchmark_with 3) (denying 0) = (BadAlloc, [EvAlloc (ReqVector 36) 0])
  /\ run (runAoSBenchmark_with 0) (denying 0)
     = (Done tt,
        [EvClock 0; EvPattern "AoS read"; EvClock 3000000;
         EvOut "❌ AoS read took: " [VInt 3; VFloat f32_zero]]).
Proof.
  assert (Hfits : struct_size ParticleAoS_def * Z.of_nat 3 <= PTRDIFF_MAX)
    by (vm_compute; discriminate).
  refine (conj _ (conj _ _)).
  - refine (proj1 (proj2 (benchmarks_print_the_same_sum generous 3 Hfits)) _ _ _ _);
      discriminate.
  - refine (proj1 (proj2 (proj2 (benchmarks_print_the_same_sum (denying 0) 3 Hfits))) _ _);
      [discriminate | reflexivity].
  - exact (proj1 (proj2 (proj2 (proj2 (proj2
             (benchmarks_print_the_same_sum (denying 0) 3 Hfits)))))).
Defined.

End SoaVsAos.

(* ===================================================================== *)
(** * false_sharing: two threads incrementing neighbouring counters *)
(* ===================================================================== *)

Module FalseSharing.
Import Layout.

Definition NUM_ITERATIONS : Z := 1000000000.

(** [struct SharedDataFalseSharing { int x; int y; };] *)
Definition SharedDataFalseSharing_def : struct_def :=
  {| alignas := None;
     members := [("x"%string, Tint); ("y"%string, Tint)] |}.

(** [struct alignas(64) SharedDataNoFalseSharing
      { int x; char padding[64 - sizeof(int)]; int y; };] *)
Definition SharedDataNoFalseSharing_def : struct_def :=
  {| alignas := Some 64;
     members := [("x"%string, Tint);
                 ("padding"%string, Tarray Tchar (64 - sizeof Tint));
                 ("y"%string, Tint)] |}.

(** The address of member [name] of the instance at [base]. *)
Definition field_addr (sd : struct_def) (base : Z) (name : string) : Z :=
  base + default 0 (offsetof sd name).

(** An address at which an instance of the struct may be placed. *)
Definition valid_base (sd : struct_def) (base : Z) : Prop :=
  base mod struct_align sd = 0.

(** [b] is one of the bytes of the [int] member [name]. *)
Definition byte_of_field (sd : struct_def) (base : Z) (name : string) (b : Z) : Prop :=
  field_addr sd base name <= b < field_addr sd base name + sizeof Tint.

(** All bytes of [x] and of [y] are in one cache line. *)
Definition fields_in_one_line (sd : struct_def) (base : Z) : Prop :=
  exists line, forall b,
    byte_of_field sd base "x" b \/ byte_of_field sd base "y" b -> line_of b = line.

(** No byte of [x] is in a cache line that holds a byte of [y]. *)
Definition fields_in_different_lines (sd : struct_def) (base : Z) : Prop :=
  forall bx by_,
    byte_of_field sd base "x" bx -> byte_of_field sd base "y" by_ ->
    line_of bx <> line_of by_.

Lemma shared_layout :
  offsetof SharedDataFalseSharing_def "x" = Some 0 /\
  offsetof SharedDataFalseSharing_def "y" = Some 4 /\
  struct_size SharedDataFalseSharing_def = 8 /\
  struct_align SharedDataFalseSharing_def = 4.
Proof. repeat split. Qed.

Lemma separated_layout :
  offsetof SharedDataNoFalseSharing_def "x" = Some 0 /\
  offsetof SharedDataNoFalseSharing_def "padding" = Some 4 /\
  offsetof SharedDataNoFalseSharing_def "y" = Some 64 /\
  struct_size SharedDataNoFalseSharing_def = 128 /\
  struct_align SharedDataNoFalseSharing_def = 64.
Proof. repeat split. Qed.

Lemma shared_one_line_iff base :
  valid_base SharedDataFalseSharing_def base ->
  fields_in_one_line SharedDataFalseSharing_def base <-> base mod 64 <> 60.
Proof.
  unfold valid_base, fields_in_one_line, byte_of_field, field_addr, line_of, CACHE_LINE.
  change (struct_align SharedDataFalseSharing_def) with 4.
  change (default 0 (offsetof SharedDataFalseSharing_def "x")) with 0.
  change (default 0 (offsetof SharedDataFalseSharing_def "y")) with 4.
  change (sizeof Tint) with 4.
  intros Hbase. split.
  - intros [line Hline].
    pose proof (Hline base ltac:(lia)) as H0.
    pose proof (Hline (base + 7) ltac:(lia)) as H7.
    rewrite <- H7 in H0. clear Hline H7.
    Z.div_mod_to_equations. lia.
  - intros Hne. exists (base / 64). intros b Hb.
    Z.div_mod_to_equations. lia.
Qed.

Lemma separated_different_lines base :
  valid_base SharedDataNoFalseSharing_def base ->
  fields_in_different_lines SharedDataNoFalseSharing_def base.
Proof.
  unfold valid_base, fields_in_different_lines, byte_of_field, field_addr, line_of, CACHE_LINE.
  change (struct_align SharedDataNoFalseSharing_def) with 64.
  change (default 0 (offsetof SharedDataNoFalseSharing_def "x")) with 0.
  change (default 0 (offsetof SharedDataNoFalseSharing_def "y")) with 64.
  change (sizeof Tint) with 4.
  intros Hbase bx by_ Hx Hy Heq.
  Z.div_mod_to_equations. lia.
Qed.

(** C7, as stated, fails: an instance of [SharedDataFalseSharing] may start
    at address 60 (its alignment is 4); its [x] then ends cache line 0 and
    its [y] begins cache line 1. *)
Lemma shared_fields_can_straddle :
  valid_base SharedDataFalseSharing_def 60 /\
  byte_of_field SharedDataFalseSharing_def 60 "x" 60 /\ line_of 60 = 0 /\
  byte_of_field SharedDataFalseSharing_def 60 "y" 64 /\ line_of 64 = 1 /\
  ~ fields_in_one_line SharedDataFalseSharing_def 60.
Proof.
  assert (Hv : valid_base SharedDataFalseSharing_def 60) by reflexivity.
  refine (conj Hv (conj _ (conj eq_refl (conj _ (conj eq_refl _))))).
  - cbv. split; [discriminate | reflexivity].
  - cbv. split; [discriminate | reflexivity].
  - rewrite (shared_one_line_iff 60 Hv). intros Hne. apply Hne. reflexivity.
Qed.

(** C7, amended: in the shared-line layout [x] and [y] are adjacent, with
    no padding between or after them (offsets 0 and 4, size 8, alignment
    4), so that an instance has both in one 64-byte cache line exactly when
    it does not start 60 bytes into a line, and in particular whenever it
    is 8-byte aligned; in the separated layout (offsets 0 and 64, size 128,
    alignment 64) [x] and [y] are in different cache lines for every
    instance. *)
Theorem field_lines (base : Z) :
  (offsetof SharedDataFalseSharing_def "x" = Some 0 /\
   offsetof SharedDataFalseSharing_def "y" = Some 4 /\
   struct_size SharedDataFalseSharing_def = sizeof Tint + sizeof Tint) /\
  (valid_base SharedDataFalseSharing_def base ->
   (fields_in_one_line SharedDataFalseSharing_def base <-> base mod 64 <> 60) /\
   (base mod 8 = 0 -> fields_in_one_line SharedDataFalseSharing_def base)) /\
  (offsetof SharedDataNoFalseSharing_def "x" = Some 0 /\
   offsetof SharedDataNoFalseSharing_def "y" = Some 64 /\
   struct_align SharedDataNoFalseSharing_def = 64) /\
  (valid_base SharedDataNoFalseSharing_def base ->
   fields_in_different_lines SharedDataNoFalseSharing_def base).
Proof.
  split; [repeat split|]. split; [|split; [repeat split|]].
  - intros Hv. split; [now apply shared_one_line_iff|].
    intros H8. apply (shared_one_line_iff base Hv).
    Z.div_mod_to_equations. lia.
  - apply separated_different_lines.
Qed.

Lemma field_lines_witness :
  fields_in_one_line SharedDataFalseSharing_def 64 /\
  fields_in_different_lines SharedDataNoFalseSharing_def 64.
Proof.
  destruct (field_lines 64) as (_ & Hshared & _ & Hsep). split.
  - destruct (Hshared eq_refl) as [_ H8]. apply H8. reflexivity.
  - apply Hsep. reflexivity.
Defined.

(** ** Byte-addressed memory *)

Definition memory : Type := Z -> Z.

(** Byte [k] of the little-endian representation of the [int] [v]. *)
Definition byte_of (v k : Z) : Z := (v mod 4294967296) / 256 ^ k mod 256.

Definition load_int (m : memory) (a : Z) : Z :=
  wrap32 (m a + 256 * m (a + 1) + 65536 * m (a + 2) + 16777216 * m (a + 3)).

Definition store_int (m : memory) (a v : Z) : memory :=
  fun b => if (a <=? b) && (b <? a + 4) then byte_of v (b - a) else m b.

(** The object of [size] bytes at [base], zero-initialised
    ([dataFalse{0, 0}], [dataNoFalse{0, {}, 0}]). *)
Definition zero_object (m : memory) (base size : Z) : memory :=
  fun b => if (base <=? b) && (b <? base + size) then 0 else m b.

Lemma within_true a b : a <= b < a + 4 -> (a <=? b) && (b <? a + 4) = true.
Proof. intros H. apply andb_true_intro. split; [apply Z.leb_le | apply Z.ltb_lt]; lia. Qed.

Lemma within_false a b : b < a \/ a + 4 <= b -> (a <=? b) && (b <? a + 4) = false.
Proof.
  intros H. apply andb_false_iff.
  destruct H; [left; apply Z.leb_gt | right; apply Z.ltb_ge]; lia.
Qed.

Lemma load_store_same m a v : load_int (store_int m a v) a = wrap32 v.
Proof.
  unfold load_int, store_int. rewrite !within_true by lia.
  replace (a - a) with 0 by lia. replace (a + 1 - a) with 1 by lia.
  replace (a + 2 - a) with 2 by lia. replace (a + 3 - a) with 3 by lia.
  unfold byte_of, wrap32.
  change (256 ^ 0) with 1. change (256 ^ 1) with 256.
  change (256 ^ 2) with 65536. change (256 ^ 3) with 16777216.
  Z.div_mod_to_equations. lia.
Qed.

Lemma load_store_other m a b v :
  a + 4 <= b \/ b + 4 <= a -> load_int (store_int m a v) b = load_int m b.
Proof.
  intros H. unfold load_int, store_int. now rewrite !within_false by lia.
Qed.

Lemma load_zero_object m base size a :
  base <= a -> a + 4 <= base + size -> load_int (zero_object m base size) a = 0.
Proof.
  intros Hlo Hhi. unfold load_int, zero_object.
  assert (Hin : forall b, a <= b < a + 4 -> (base <=? b) && (b <? base + size) = true).
  { intros b Hb. apply andb_true_intro. split; [apply Z.leb_le | apply Z.ltb_lt]; lia. }
  rewrite !Hin by lia. reflexivity.
Qed.

(** ** The two threads *)

(** A thread runs [for (size_t i = 0; i < n; ++i) field++;] on a
    [volatile int]: per iteration a load into a temporary and a store of
    the temporary plus one, other threads being free to run in between. *)
Inductive thread :=
| AtLoad (i : Z)
| AtStore (i tmp : Z)
| Finished.

Definition thread_step (n field : Z) (m : memory) (t : thread) : option (memory * thread) :=
  match t with
  | AtLoad i =>
      if Z.ltb i n then Some (m, AtStore i (load_int m field)) else Some (m, Finished)
  | AtStore i tmp => Some (store_int m field (wrap32 (tmp + 1)), AtLoad (i + 1))
  | Finished => None
  end.

Record state := { mem : memory; t1 : thread; t2 : thread }.

Inductive tid := T1 | T2.

(** One step of thread [who]; [t1] increments the field at [fx], [t2] the
    field at [fy]. *)
Definition step_thread (n fx fy : Z) (who : tid) (s : state) : option state :=
  match who with
  | T1 => r ← thread_step n fx (mem s) (t1 s);
          Some {| mem := fst r; t1 := snd r; t2 := t2 s |}
  | T2 => r ← thread_step n fy (mem s) (t2 s);
          Some {| mem := fst r; t1 := t1 s; t2 := snd r |}
  end.

(** [reach_in k s s']: some interleaving of the two threads leads from [s]
    to [s'] in [k] steps. *)
Inductive reach_in (n fx fy : Z) : nat -> state -> state -> Prop :=
| reach_here s : reach_in n fx fy 0 s s
| reach_step k who s s' s'' :
    step_thread n fx fy who s = Some s' ->
    reach_in n fx fy k s' s'' ->
    reach_in n fx fy (S k) s s''.

(** Both [join]s have returned. *)
Definition joined (s : state) : bool :=
  match t1 s, t2 s with
  | Finished, Finished => true
  | _, _ => false
  end.

(** The state when the threads are started on memory [m]. *)
Definition started (m : memory) : state :=
  {| mem := m; t1 := AtLoad 0; t2 := AtLoad 0 |}.

(** The state a schedule leads to; a turn given to a finished thread is
    lost. *)
Fixpoint run_schedule (n fx fy : Z) (sched : list tid) (s : state) : state :=
  match sched with
  | [] => s
  | who :: rest =>
      match step_thread n fx fy who s with
      | Some s' => run_schedule n fx fy rest s'
      | None => run_schedule n fx fy rest s
      end
  end.

(** The steps a thread still has to take. *)
Definition remaining (n : Z) (t : thread) : Z :=
  match t with
  | AtLoad i => 2 * (n - i) + 1
  | AtStore i _ => 2 * (n - i)
  | Finished => 0
  end.

(** What a thread knows about its own field, whose value is [v]. *)
Definition thread_inv (n v : Z) (t : thread) : Prop :=
  match t with
  | AtLoad i => v = i /\ 0 <= i <= n
  | AtStore i tmp => tmp = i /\ v = i /\ 0 <= i < n
  | Finished => v = n
  end.

Definition state_inv (n fx fy : Z) (s : state) : Prop :=
  thread_inv n (load_int (mem s) fx) (t1 s) /\ thread_inv n (load_int (mem s) fy) (t2 s).

Section Threads.
Variables n fx fy : Z.
Hypothesis Hn : 0 <= n <= INT_MAX.
Hypothesis Hdisjoint : fx + 4 <= fy \/ fy + 4 <= fx.

(** A step of a thread keeps what it knows about its own field, and takes
    one of its remaining steps. *)
Lemma thread_step_own field m t m' t' :
  thread_inv n (load_int m field) t ->
  thread_step n field m t = Some (m', t') ->
  thread_inv n (load_int m' field) t' /\ remaining n t = remaining n t' + 1.
Proof.
  unfold INT_MAX in Hn.
  destruct t as [i|i tmp|]; simpl; intros Hinv Hstep.
  - destruct (Z.ltb_spec i n); injection Hstep as <- <-; simpl; lia.
  - injection Hstep as <- <-. destruct Hinv as (-> & Hv & Hi).
    rewrite load_store_same. simpl.
    rewrite !wrap32_small by (unfold is_int, INT_MIN, INT_MAX;
                              rewrite ?wrap32_small by (unfold is_int, INT_MIN, INT_MAX; lia);
                              lia).
    lia.
  - discriminate.
Qed.

(** A step of a thread leaves every disjoint [int] as it was. *)
Lemma thread_step_other field other m t m' t' :
  field + 4 <= other \/ other + 4 <= field ->
  thread_step n field m t = Some (m', t') ->
  load_int m' other = load_int m other.
Proof.
  intros Hd. destruct t as [i|i tmp|]; simpl; intros Hstep.
  - destruct (Z.ltb i n); now injection Hstep as <- <-.
  - injection Hstep as <- <-. now apply load_store_other.
  - discriminate.
Qed.

Lemma step_preserves who s s' :
  state_inv n fx fy s -> step_thread n fx fy who s = Some s' ->
  state_inv n fx fy s' /\
  remaining n (t1 s) + remaining n (t2 s) = remaining n (t1 s') + remaining n (t2 s') + 1.
Proof.
  intros [H1 H2] Hstep. destruct who; simpl in Hstep.
  - destruct (thread_step n fx (mem s) (t1 s)) as [[m' t']|] eqn:E; [|discriminate].
    injection Hstep as <-. simpl.
    destruct (thread_step_own _ _ _ _ _ H1 E) as [Hown Hrem].
    unfold state_inv. simpl.
    rewrite (thread_step_other fx fy _ _ _ _ Hdisjoint E). split; [split; assumption | lia].
  - destruct (thread_step n fy (mem s) (t2 s)) as [[m' t']|] eqn:E; [|discriminate].
    injection Hstep as <-. simpl.
    destruct (thread_step_own _ _ _ _ _ H2 E) as [Hown Hrem].
    unfold state_inv. simpl.
    rewrite (thread_step_other fy fx _ _ _ _ ltac:(lia) E). split; [split; assumption | lia].
Qed.

Lemma reach_preserves k s s' :
  reach_in n fx fy k s s' -> state_inv n fx fy s ->
  state_inv n fx fy s' /\
  remaining n (t1 s) + remaining n (t2 s)
  = remaining n (t1 s') + remaining n (t2 s') + Z.of_nat k.
Proof.
  induction 1 as [s|k who s s' s'' Hstep Hreach IH]; intros Hinv.
  - split; [assumption | lia].
  - destruct (step_preserves who s s' Hinv Hstep) as [Hinv' Hrem].
    destruct (IH Hinv') as [Hinv'' Hrem']. split; [assumption | lia].
Qed.

Lemma remaining_nonneg s :
  state_inv n fx fy s -> 0 <= remaining n (t1 s) /\ 0 <= remaining n (t2 s).
Proof.
  intros [H1 H2]. destruct (t1 s), (t2 s); simpl in *; lia.
Qed.

(** While a thread is unfinished there is a step to take. *)
Lemma not_joined_steps s :
  joined s = false -> exists who s', step_thread n fx fy who s = Some s'.
Proof.
  unfold joined. intros Hj.
  destruct (t1 s) as [i|i tmp|] eqn:E1.
  - exists T1. simpl. rewrite E1. simpl. destruct (Z.ltb i n); simpl; eauto.
  - exists T1. simpl. rewrite E1. simpl. eauto.
  - destruct (t2 s) as [i|i tmp|] eqn:E2; [| |discriminate].
    + exists T2. simpl. rewrite E2. simpl. destruct (Z.ltb i n); simpl; eauto.
    + exists T2. simpl. rewrite E2. simpl. eauto.
Qed.

Lemma joined_values s :
  state_inv n fx fy s -> joined s = true ->
  load_int (mem s) fx = n /\ load_int (mem s) fy = n.
Proof.
  unfold joined, state_inv. intros [H1 H2] Hj.
  destruct (t1 s); try discriminate. destruct (t2 s); try discriminate.
  simpl in *. auto.
Qed.

Lemma run_schedule_reach sched s :
  exists k, reach_in n fx fy k s (run_schedule n fx fy sched s).
Proof.
  revert s. induction sched as [|who rest IH]; intros s; simpl.
  - exists 0%nat. constructor.
  - destruct (step_thread n fx fy who s) as [s'|] eqn:E.
    + destruct (IH s') as [k Hk]. exists (S k). econstructor; eassumption.
    + apply IH.
Qed.

End Threads.

(** The two programs differ in the global their threads work on:
    [dataFalse] and [dataNoFalse], here the instance of [sd] at [base]. *)
Lemma layout_fields sd base :
  sd = SharedDataFalseSharing_def \/ sd = SharedDataNoFalseSharing_def ->
  let fx := field_addr sd base "x" in
  let fy := field_addr sd base "y" in
  fx + 4 <= fy /\ base <= fx /\ fy + 4 <= base + struct_size sd.
Proof.
  intros [-> | ->]; unfold field_addr.
  - change (default 0 (offsetof SharedDataFalseSharing_def "x")) with 0.
    change (default 0 (offsetof SharedDataFalseSharing_def "y")) with 4.
    change (struct_size SharedDataFalseSharing_def) with 8. simpl. lia.
  - change (default 0 (offsetof SharedDataNoFalseSharing_def "x")) with 0.
    change (default 0 (offsetof SharedDataNoFalseSharing_def "y")) with 64.
    change (struct_size SharedDataNoFalseSharing_def) with 128. simpl. lia.
Qed.

(** What holds of a state [s] reached after [k] steps of the two threads
    on the instance of [sd] at [base]. *)
Definition counters_exact (sd : struct_def) (base n : Z) (k : nat) (s : state) : Prop :=
  (joined s = true ->
   load_int (mem s) (field_addr sd base "x") = n /\
   load_int (mem s) (field_addr sd base "y") = n) /\
  (joined s = false ->
   exists who s',
     step_thread n (field_addr sd base "x") (field_addr sd base "y") who s = Some s') /\
  (joined s = true <-> Z.of_nat k = 4 * n + 2) /\
  Z.of_nat k <= 4 * n + 2.

Lemma counters_exact_layout (sd : struct_def) (base n : Z) (m : memory) (k : nat) (s : state) :
  sd = SharedDataFalseSharing_def \/ sd = SharedDataNoFalseSharing_def ->
  0 <= n <= INT_MAX ->
  reach_in n (field_addr sd base "x") (field_addr sd base "y") k
           (started (zero_object m base (struct_size sd))) s ->
  counters_exact sd base n k s.
Proof.
  intros Hsd Hn Hreach.
  destruct (layout_fields sd base Hsd) as (Hd & Hlo & Hhi).
  unfold counters_exact.
  set (fx := field_addr sd base "x") in *. set (fy := field_addr sd base "y") in *.
  assert (Hinit : state_inv n fx fy (started (zero_object m base (struct_size sd)))).
  { unfold state_inv, started. simpl.
    rewrite !load_zero_object by lia. lia. }
  destruct (reach_preserves n fx fy Hn (or_introl Hd) k _ _ Hreach Hinit) as [Hinv Hrem].
  simpl in Hrem.
  pose proof (remaining_nonneg n fx fy s Hinv) as [Hr1 Hr2].
  refine (conj _ (conj _ (conj _ _))).
  - now apply joined_values.
  - apply not_joined_steps.
  - unfold joined. destruct Hinv as [H1 H2].
    destruct (t1 s), (t2 s); simpl in *; split; intros; try discriminate; try reflexivity; lia.
  - lia.
Qed.

(** [volatile SharedDataFalseSharing dataFalse{0, 0};] and
    [volatile SharedDataNoFalseSharing dataNoFalse{0, {}, 0};], placed at
    [base] in the memory [m]. *)
Definition dataFalse (m : memory) (base : Z) : memory :=
  zero_object m base (struct_size SharedDataFalseSharing_def).
Definition dataNoFalse (m : memory) (base : Z) : memory :=
  zero_object m base (struct_size SharedDataNoFalseSharing_def).

(** [runFalseSharingBenchmark], between the start of [t1] and [t2] and
    their [join]: the interleavings of [threadFunc1] ([dataFalse.x++], [n]
    times) and [threadFunc2] ([dataFalse.y++], [n] times). *)
Definition runFalseSharingBenchmark_with (n base : Z) : nat -> state -> state -> Prop :=
  reach_in n (field_addr SharedDataFalseSharing_def base "x")
             (field_addr SharedDataFalseSharing_def base "y").

(** [runNoFalseSharingBenchmark]: the same on [dataNoFalse]. *)
Definition runNoFalseSharingBenchmark_with (n base : Z) : nat -> state -> state -> Prop :=
  reach_in n (field_addr SharedDataNoFalseSharing_def base "x")
             (field_addr SharedDataNoFalseSharing_def base "y").

Definition runFalseSharingBenchmark : Z -> nat -> state -> state -> Prop :=
  runFalseSharingBenchmark_with NUM_ITERATIONS.
Definition runNoFalseSharingBenchmark : Z -> nat -> state -> state -> Prop :=
  runNoFalseSharingBenchmark_with NUM_ITERATIONS.

(** ** What the threads leave alone *)

Lemma load_int_ext m m' a :
  (forall b, a <= b < a + 4 -> m b = m' b) -> load_int m a = load_int m' a.
Proof. intros Hb. unfold load_int. now rewrite !Hb by lia. Qed.

Lemma load_zero_bytes m a : (forall b, a <= b < a + 4 -> m b = 0) -> load_int m a = 0.
Proof. intros Hb. unfold load_int. now rewrite !Hb by lia. Qed.

Lemma thread_step_frame n field m t m' t' b :
  thread_step n field m t = Some (m', t') ->
  b < field \/ field + 4 <= b -> m' b = m b.
Proof.
  destruct t as [i|i tmp|]; simpl; intros Hstep Hb.
  - destruct (Z.ltb i n); now injection Hstep as <- <-.
  - injection Hstep as <- <-. unfold store_int. now rewrite within_false.
  - discriminate.
Qed.

Lemma reach_frame n fx fy k s s' :
  reach_in n fx fy k s s' ->
  forall b, b < fx \/ fx + 4 <= b -> b < fy \/ fy + 4 <= b -> mem s' b = mem s b.
Proof.
  induction 1 as [s|k who s s' s'' Hstep Hreach IH]; intros b Hx Hy; [reflexivity|].
  rewrite (IH b Hx Hy). destruct who; simpl in Hstep.
  - destruct (thread_step n fx (mem s) (t1 s)) as [[m' t']|] eqn:E; [|discriminate].
    injection Hstep as <-. simpl. eapply thread_step_frame; eassumption.
  - destruct (thread_step n fy (mem s) (t2 s)) as [[m' t']|] eqn:E; [|discriminate].
    injection Hstep as <-. simpl. eapply thread_step_frame; eassumption.
Qed.

(** X12: from any state and under any interleaving, the threads of either
    program change no byte of memory other than the bytes of [x] and of
    [y]: the padding of [dataNoFalse] and everything outside the global
    stay as they were. *)
Theorem threads_write_only_their_fields (base n : Z) (k : nat) (s s' : state) (b : Z) :
  (runFalseSharingBenchmark_with n base k s s' ->
   ~ byte_of_field SharedDataFalseSharing_def base "x" b ->
   ~ byte_of_field SharedDataFalseSharing_def base "y" b ->
   mem s' b = mem s b) /\
  (runNoFalseSharingBenchmark_with n base k s s' ->
   ~ byte_of_field SharedDataNoFalseSharing_def base "x" b ->
   ~ byte_of_field SharedDataNoFalseSharing_def base "y" b ->
   mem s' b = mem s b).
Proof.
  unfold runFalseSharingBenchmark_with, runNoFalseSharingBenchmark_with, byte_of_field.
  change (sizeof Tint) with 4.
  split; intros Hreach Hx Hy; apply (reach_frame _ _ _ _ _ _ Hreach); lia.
Qed.

Lemma threads_write_only_their_fields_witness :
  let s := started (dataNoFalse (fun a => a mod 256) 128) in
  mem (run_schedule 1 128 192 [T1; T2; T1; T2; T1; T2] s) 140 = 0 /\
  mem (run_schedule 1 128 192 [T1; T2; T1; T2; T1; T2] s) 300 = 44.
Proof.
  intros s.
  destruct (run_schedule_reach 1 128 192 [T1; T2; T1; T2; T1; T2] s) as [k Hk].
  split.
  - refine (eq_trans (proj2 (threads_write_only_their_fields 128 1 k s _ 140) Hk _ _) _).
    + cbv. intros [_ H]. discriminate H.
    + cbv. intros [H _]. now apply H.
    + reflexivity.
  - refine (eq_trans (proj2 (threads_write_only_their_fields 128 1 k s _ 300) Hk _ _) _).
    + cbv. intros [_ H]. discriminate H.
    + cbv. intros [_ H]. discriminate H.
    + reflexivity.
Defined.

(** ** The counters while the threads run *)

Lemma counters_during (sd : struct_def) (base n : Z) (m : memory) (k : nat) (s : state) :
  sd = SharedDataFalseSharing_def \/ sd = SharedDataNoFalseSharing_def ->
  0 <= n <= INT_MAX ->
  reach_in n (field_addr sd base "x") (field_addr sd base "y") k
           (started (zero_object m base (struct_size sd))) s ->
  0 <= load_int (mem s) (field_addr sd base "x") <= n /\
  0 <= load_int (mem s) (field_addr sd base "y") <= n /\
  2 * (load_int (mem s) (field_addr sd base "x") + load_int (mem s) (field_addr sd base "y"))
    <= Z.of_nat k
    <= 2 * (load_int (mem s) (field_addr sd base "x")
            + load_int (mem s) (field_addr sd base "y")) + 2.
Proof.
  intros Hsd Hn Hreach.
  destruct (layout_fields sd base Hsd) as (Hd & Hlo & Hhi).
  set (fx := field_addr sd base "x") in *. set (fy := field_addr sd base "y") in *.
  assert (Hinit : state_inv n fx fy (started (zero_object m base (struct_size sd)))).
  { unfold state_inv, started. simpl. rewrite !load_zero_object by lia. lia. }
  destruct (reach_preserves n fx fy Hn (or_introl Hd) k _ _ Hreach Hinit) as [[H1 H2] Hrem].
  simpl in Hrem.
  destruct (t1 s), (t2 s); simpl in *; lia.
Qed.

(** X13: at every moment of every interleaving, in either program, [x] and
    [y] lie between 0 and the iteration count (so that no increment
    overflows an [int]), and the steps taken so far are two per completed
    increment, plus at most one per thread (a load whose store is pending,
    or the last loop test). *)
Theorem counters_stay_in_range (base n : Z) (m : memory) (k : nat) (s : state) :
  0 <= n <= INT_MAX ->
  (runFalseSharingBenchmark_with n base k (started (dataFalse m base)) s ->
   let x := load_int (mem s) (field_addr SharedDataFalseSharing_def base "x") in
   let y := load_int (mem s) (field_addr SharedDataFalseSharing_def base "y") in
   0 <= x <= n /\ 0 <= y <= n /\ 2 * (x + y) <= Z.of_nat k <= 2 * (x + y) + 2) /\
  (runNoFalseSharingBenchmark_with n base k (started (dataNoFalse m base)) s ->
   let x := load_int (mem s) (field_addr SharedDataNoFalseSharing_def base "x") in
   let y := load_int (mem s) (field_addr SharedDataNoFalseSharing_def base "y") in
   0 <= x <= n /\ 0 <= y <= n /\ 2 * (x + y) <= Z.of_nat k <= 2 * (x + y) + 2).
Proof.
  intros Hn. split; intros Hreach.
  - apply (counters_during SharedDataFalseSharing_def base n m k s); auto.
  - apply (counters_during SharedDataNoFalseSharing_def base n m k s); auto.
Qed.

Lemma counters_stay_in_range_witness :
  let s := run_schedule 3 60 64 [T1; T1; T2; T1; T1] (started (dataFalse (fun _ => 0) 60)) in
  0 <= load_int (mem s) 60 <= 3 /\ 0 <= load_int (mem s) 64 <= 3.
Proof.
  intros s.
  destruct (run_schedule_reach 3 60 64 [T1; T1; T2; T1; T1]
              (started (dataFalse (fun _ => 0) 60))) as [k Hk].
  destruct (proj1 (counters_stay_in_range 60 3 (fun _ => 0) k s
                     ltac:(unfold INT_MAX; lia)) Hk) as (Hx & Hy & _).
  split; [exact Hx | exact Hy].
Defined.

(** ** Schedules that let both threads finish *)

(** The turns a schedule gives to thread [who]. *)
Fixpoint turns (who : tid) (sched : list tid) : Z :=
  match sched with
  | [] => 0
  | T1 :: rest => (match who with T1 => 1 | T2 => 0 end) + turns who rest
  | T2 :: rest => (match who with T1 => 0 | T2 => 1 end) + turns who rest
  end.

Lemma turns_nonneg who sched : 0 <= turns who sched.
Proof. induction sched as [|[] rest IH]; destruct who; simpl; lia. Qed.

Section Schedules.
Variables n fx fy : Z.
Hypothesis Hn : 0 <= n <= INT_MAX.
Hypothesis Hdisjoint : fx + 4 <= fy \/ fy + 4 <= fx.

(** Each turn takes one of the steps the thread has left, until none is
    left. *)
Lemma run_schedule_remaining sched :
  forall s, state_inv n fx fy s ->
    state_inv n fx fy (run_schedule n fx fy sched s) /\
    remaining n (t1 (run_schedule n fx fy sched s))
    = Z.max 0 (remaining n (t1 s) - turns T1 sched) /\
    remaining n (t2 (run_schedule n fx fy sched s))
    = Z.max 0 (remaining n (t2 s) - turns T2 sched).
Proof.
  induction sched as [|who rest IH]; intros s Hinv.
  - pose proof (remaining_nonneg n fx fy s Hinv). simpl. split; [assumption | lia].
  - pose proof (remaining_nonneg n fx fy s Hinv) as [Hr1 Hr2].
    pose proof (turns_nonneg T1 rest). pose proof (turns_nonneg T2 rest).
    cbn [run_schedule].
    destruct (step_thread n fx fy who s) as [s'|] eqn:Hstep.
    + destruct (step_preserves n fx fy Hn Hdisjoint who s s' Hinv Hstep) as [Hinv' Hrem].
      destruct (IH s' Hinv') as (Hfin & H1 & H2).
      split; [exact Hfin|]. rewrite H1, H2.
      destruct who; simpl in Hstep.
      * destruct (thread_step n fx (mem s) (t1 s)) as [[m' t']|]; [|discriminate].
        injection Hstep as <-. simpl in *. lia.
      * destruct (thread_step n fy (mem s) (t2 s)) as [[m' t']|]; [|discriminate].
        injection Hstep as <-. simpl in *. lia.
    + destruct (IH s Hinv) as (Hfin & H1 & H2).
      split; [exact Hfin|]. rewrite H1, H2.
      destruct who; simpl in Hstep.
      * destruct (t1 s) as [i|i tmp|] eqn:E1; simpl in Hstep;
          [destruct (Z.ltb i n); discriminate | discriminate |].
        simpl. lia.
      * destruct (t2 s) as [i|i tmp|] eqn:E2; simpl in Hstep;
          [destruct (Z.ltb i n); discriminate | discriminate |].
        simpl. lia.
Qed.

Lemma no_steps_left s :
  state_inv n fx fy s -> remaining n (t1 s) = 0 -> remaining n (t2 s) = 0 ->
  joined s = true.
Proof.
  unfold joined. intros [H1 H2] Hr1 Hr2.
  destruct (t1 s), (t2 s); simpl in *; try reflexivity; lia.
Qed.

End Schedules.

Lemma enough_turns_layout (sd : struct_def) (base n : Z) (m : memory) (sched : list tid) :
  sd = SharedDataFalseSharing_def \/ sd = SharedDataNoFalseSharing_def ->
  0 <= n <= INT_MAX ->
  2 * n + 1 <= turns T1 sched -> 2 * n + 1 <= turns T2 sched ->
  let s := run_schedule n (field_addr sd base "x") (field_addr sd base "y") sched
             (started (zero_object m base (struct_size sd))) in
  joined s = true /\
  load_int (mem s) (field_addr sd base "x") = n /\
  load_int (mem s) (field_addr sd base "y") = n.
Proof.
  intros Hsd Hn Ht1 Ht2.
  destruct (layout_fields sd base Hsd) as (Hd & Hlo & Hhi).
  set (fx := field_addr sd base "x") in *. set (fy := field_addr sd base "y") in *.
  assert (Hinit : state_inv n fx fy (started (zero_object m base (struct_size sd)))).
  { unfold state_inv, started. simpl. rewrite !load_zero_object by lia. lia. }
  destruct (run_schedule_remaining n fx fy Hn (or_introl Hd) sched _ Hinit)
    as (Hinv & H1 & H2).
  simpl in H1, H2. intros s. subst s.
  assert (Hj : joined (run_schedule n fx fy sched
                         (started (zero_object m base (struct_size sd)))) = true).
  { apply (no_steps_left n fx fy); [exact Hinv | lia | lia]. }
  split; [exact Hj|]. now apply joined_values.
Qed.

(** X14: any schedule that gives each thread at least [2 n + 1] turns (a
    load and a store per increment, and the last loop test), in whatever
    order and with whatever turns besides, ends with both threads finished
    and [x = y = n], in either program. *)
Theorem enough_turns_finish (base n : Z) (m : memory) (sched : list tid) :
  0 <= n <= INT_MAX ->
  2 * n + 1 <= turns T1 sched -> 2 * n + 1 <= turns T2 sched ->
  (let s := run_schedule n (field_addr SharedDataFalseSharing_def base "x")
              (field_addr SharedDataFalseSharing_def base "y") sched
              (started (dataFalse m base)) in
   joined s = true /\
   load_int (mem s) (field_addr SharedDataFalseSharing_def base "x") = n /\
   load_int (mem s) (field_addr SharedDataFalseSharing_def base "y") = n) /\
  (let s := run_schedule n (field_addr SharedDataNoFalseSharing_def base "x")
              (field_addr SharedDataNoFalseSharing_def base "y") sched
              (started (dataNoFalse m base)) in
   joined s = true /\
   load_int (mem s) (field_addr SharedDataNoFalseSharing_def base "x") = n /\
   load_int (mem s) (field_addr SharedDataNoFalseSharing_def base "y") = n).
Proof.
  intros Hn Ht1 Ht2. split.
  - apply (enough_turns_layout SharedDataFalseSharing_def); auto.
  - apply (enough_turns_layout SharedDataNoFalseSharing_def); auto.
Qed.

Lemma enough_turns_finish_witness :
  let s := run_schedule 2 60 64 [T2; T2; T1; T2; T2; T1; T1; T2; T1; T1; T2; T1]
             (started (dataFalse (fun _ => 0) 60)) in
  joined s = true /\ load_int (mem s) 60 = 2 /\ load_int (mem s) 64 = 2.
Proof.
  refine (proj1 (enough_turns_finish 60 2 (fun _ => 0)
                   [T2; T2; T1; T2; T2; T1; T1; T2; T1; T1; T2; T1] _ _ _)).
  - unfold INT_MAX. lia.
  - simpl. lia.
  - simpl. lia.
Defined.

(** ** The two benchmarks one after the other *)

(** The memory when [main] starts: both globals zero-initialised. *)
Definition globals (m : memory) (base_false base_no_false : Z) : memory :=
  dataNoFalse (dataFalse m base_false) base_no_false.

(** [main]: [runFalseSharingBenchmark] until its threads are joined ([k1]
    steps, state [s1]), then [runNoFalseSharingBenchmark] on the memory it
    leaves, until its threads are joined ([k2] steps, state [s2]). *)
Definition main_with (n base_false base_no_false : Z) (m : memory)
    (k1 k2 : nat) (s1 s2 : state) : Prop :=
  runFalseSharingBenchmark_with n base_false k1
    (started (globals m base_false base_no_false)) s1 /\
  joined s1 = true /\
  runNoFalseSharingBenchmark_with n base_no_false k2 (started (mem s1)) s2 /\
  joined s2 = true.

Definition main : Z -> Z -> memory -> nat -> nat -> state -> state -> Prop :=
  main_with NUM_ITERATIONS.

Lemma counters_from_zero (n fx fy : Z) (m : memory) (k : nat) (s : state) :
  0 <= n <= INT_MAX -> fx + 4 <= fy \/ fy + 4 <= fx ->
  load_int m fx = 0 -> load_int m fy = 0 ->
  reach_in n fx fy k (started m) s -> joined s = true ->
  load_int (mem s) fx = n /\ load_int (mem s) fy = n /\ Z.of_nat k = 4 * n + 2.
Proof.
  intros Hn Hd Hx Hy Hreach Hj.
  assert (Hinit : state_inv n fx fy (started m)).
  { unfold state_inv, started. simpl. lia. }
  destruct (reach_preserves n fx fy Hn Hd k _ _ Hreach Hinit) as [Hinv Hrem].
  destruct (joined_values n fx fy s Hinv Hj) as [Hfx Hfy].
  refine (conj Hfx (conj Hfy _)).
  unfold joined in Hj. simpl in Hrem.
  destruct (t1 s); try discriminate. destruct (t2 s); try discriminate.
  simpl in Hrem. lia.
Qed.

(** X15: when the two globals do not overlap, after [main] has run both
    benchmarks all four counters hold the iteration count: the second
    benchmark starts from zeroed counters whatever the first did, and
    leaves the counters of the first as they were. Each benchmark took
    exactly [4 n + 2] steps. *)
Theorem main_leaves_all_counters_exact (n base_false base_no_false : Z) (m : memory)
    (k1 k2 : nat) (s1 s2 : state) :
  0 <= n <= INT_MAX ->
  base_false + struct_size SharedDataFalseSharing_def <= base_no_false \/
  base_no_false + struct_size SharedDataNoFalseSharing_def <= base_false ->
  main_with n base_false base_no_false m k1 k2 s1 s2 ->
  load_int (mem s2) (field_addr SharedDataFalseSharing_def base_false "x") = n /\
  load_int (mem s2) (field_addr SharedDataFalseSharing_def base_false "y") = n /\
  load_int (mem s2) (field_addr SharedDataNoFalseSharing_def base_no_false "x") = n /\
  load_int (mem s2) (field_addr SharedDataNoFalseSharing_def base_no_false "y") = n /\
  Z.of_nat k1 = 4 * n + 2 /\ Z.of_nat k2 = 4 * n + 2.
Proof.
  intros Hn Hglobals (Hrun1 & Hj1 & Hrun2 & Hj2).
  unfold runFalseSharingBenchmark_with in Hrun1.
  unfold runNoFalseSharingBenchmark_with in Hrun2.
  destruct (layout_fields SharedDataFalseSharing_def base_false (or_introl eq_refl))
    as (HdF & HloF & HhiF).
  destruct (layout_fields SharedDataNoFalseSharing_def base_no_false (or_intror eq_refl))
    as (HdN & HloN & HhiN).
  change (struct_size SharedDataFalseSharing_def) with 8 in *.
  change (struct_size SharedDataNoFalseSharing_def) with 128 in *.
  set (fx := field_addr SharedDataFalseSharing_def base_false "x") in *.
  set (fy := field_addr SharedDataFalseSharing_def base_false "y") in *.
  set (gx := field_addr SharedDataNoFalseSharing_def base_no_false "x") in *.
  set (gy := field_addr SharedDataNoFalseSharing_def base_no_false "y") in *.
  assert (Hzero : forall a, (base_false <= a /\ a + 4 <= base_false + 8) \/
                            (base_no_false <= a /\ a + 4 <= base_no_false + 128) ->
                  load_int (globals m base_false base_no_false) a = 0).
  { intros a Ha. apply load_zero_bytes. intros b Hb.
    unfold globals, dataNoFalse, dataFalse, zero_object.
    change (struct_size SharedDataFalseSharing_def) with 8.
    change (struct_size SharedDataNoFalseSharing_def) with 128.
    destruct ((base_no_false <=? b) && (b <? base_no_false + 128)) eqn:EN; [reflexivity|].
    destruct ((base_false <=? b) && (b <? base_false + 8)) eqn:EF; [reflexivity|].
    apply andb_false_iff in EN, EF. exfalso.
    destruct EN as [EN|EN]; [apply Z.leb_gt in EN | apply Z.ltb_ge in EN];
      (destruct EF as [EF|EF]; [apply Z.leb_gt in EF | apply Z.ltb_ge in EF]); lia. }
  destruct (counters_from_zero n fx fy _ k1 s1 Hn (or_introl HdF)
              (Hzero fx ltac:(lia)) (Hzero fy ltac:(lia)) Hrun1 Hj1) as (Hfx & Hfy & Hk1).
  assert (Hgx1 : load_int (mem s1) gx = 0).
  { rewrite <- (Hzero gx ltac:(lia)). apply load_int_ext. intros b Hb.
    apply (reach_frame _ _ _ _ _ _ Hrun1); lia. }
  assert (Hgy1 : load_int (mem s1) gy = 0).
  { rewrite <- (Hzero gy ltac:(lia)). apply load_int_ext. intros b Hb.
    apply (reach_frame _ _ _ _ _ _ Hrun1); lia. }
  destruct (counters_from_zero n gx gy _ k2 s2 Hn (or_introl HdN) Hgx1 Hgy1 Hrun2 Hj2)
    as (Hgx & Hgy & Hk2).
  refine (conj _ (conj _ (conj Hgx (conj Hgy (conj Hk1 Hk2))))).
  - rewrite <- Hfx. apply load_int_ext. intros b Hb.
    apply (reach_frame _ _ _ _ _ _ Hrun2); lia.
  - rewrite <- Hfy. apply load_int_ext. intros b Hb.
    apply (reach_frame _ _ _ _ _ _ Hrun2); lia.
Qed.

Lemma main_leaves_all_counters_exact_witness :
  let s1 := run_schedule 1 60 64 [T1; T2; T2; T1; T1; T2]
              (started (globals (fun _ => 7) 60 128)) in
  let s2 := run_schedule 1 128 192 [T2; T2; T2; T1; T1; T1] (started (mem s1)) in
  load_int (mem s2) 60 = 1 /\ load_int (mem s2) 64 = 1 /\
  load_int (mem s2) 128 = 1 /\ load_int (mem s2) 192 = 1.
Proof.
  intros s1 s2.
  destruct (run_schedule_reach 1 60 64 [T1; T2; T2; T1; T1; T2]
              (started (globals (fun _ => 7) 60 128))) as [k1 Hk1].
  destruct (run_schedule_reach 1 128 192 [T2; T2; T2; T1; T1; T1] (started (mem s1)))
    as [k2 Hk2].
  destruct (main_leaves_all_counters_exact 1 60 128 (fun _ => 7) k1 k2 s1 s2)
    as (H1 & H2 & H3 & H4 & _).
  - unfold INT_MAX. lia.
  - left. change (60 + 8 <= 128). lia.
  - exact (conj Hk1 (conj eq_refl (conj Hk2 eq_refl))).
  - repeat split; assumption.
Defined.

(** ** Both benchmarks reach their joins *)

Lemma reach_trans n fx fy k s s' :
  reach_in n fx fy k s s' ->
  forall k' s'', reach_in n fx fy k' s' s'' -> reach_in n fx fy (k + k') s s''.
Proof.
  induction 1 as [s|k who s s' s2 Hstep Hreach IH]; intros k' s'' Hnext.
  - exact Hnext.
  - simpl. econstructor; [exact Hstep | now apply IH].
Qed.

Lemma turns_app who l1 l2 : turns who (l1 ++ l2) = turns who l1 + turns who l2.
Proof. induction l1 as [|[] l1 IH]; destruct who; simpl; lia. Qed.

Lemma turns_replicate who who' c :
  turns who (replicate c who')
  = match who, who' with
    | T1, T1 | T2, T2 => Z.of_nat c
    | _, _ => 0
    end.
Proof.
  induction c as [|c IH]; [now destruct who, who'|].
  destruct who, who'; simpl turns in *; lia.
Qed.

(** A schedule under which both threads finish: all the turns of [t1],
    then all the turns of [t2]. *)
Definition one_after_the_other (n : Z) : list tid :=
  replicate (Z.to_nat (2 * n + 1)) T1 ++ replicate (Z.to_nat (2 * n + 1)) T2.

(** From whatever state an interleaving has led to, the threads can be
    run on to their joins. *)
Lemma runs_on_to_join (sd : struct_def) (base n : Z) (m : memory) (k : nat) (s : state) :
  sd = SharedDataFalseSharing_def \/ sd = SharedDataNoFalseSharing_def ->
  0 <= n <= INT_MAX ->
  reach_in n (field_addr sd base "x") (field_addr sd base "y") k
           (started (zero_object m base (struct_size sd))) s ->
  exists k' s',
    reach_in n (field_addr sd base "x") (field_addr sd base "y") (k + k')
             (started (zero_object m base (struct_size sd))) s' /\
    joined s' = true /\
    load_int (mem s') (field_addr sd base "x") = n /\
    load_int (mem s') (field_addr sd base "y") = n.
Proof.
  intros Hsd Hn Hreach.
  destruct (layout_fields sd base Hsd) as (Hd & Hlo & Hhi).
  set (fx := field_addr sd base "x") in *. set (fy := field_addr sd base "y") in *.
  assert (Hinit : state_inv n fx fy (started (zero_object m base (struct_size sd)))).
  { unfold state_inv, started. simpl. rewrite !load_zero_object by lia. lia. }
  destruct (reach_preserves n fx fy Hn (or_introl Hd) k _ _ Hreach Hinit) as [Hinv Hrem].
  simpl in Hrem.
  pose proof (remaining_nonneg n fx fy s Hinv) as [Hr1 Hr2].
  assert (Hle : remaining n (t1 s) <= 2 * n + 1 /\ remaining n (t2 s) <= 2 * n + 1).
  { destruct Hinv as [Hi1 Hi2]. destruct (t1 s), (t2 s); simpl in *; lia. }
  destruct (run_schedule_reach n fx fy (one_after_the_other n) s) as [k' Hk'].
  destruct (run_schedule_remaining n fx fy Hn (or_introl Hd) (one_after_the_other n) s Hinv)
    as (Hinv' & H1 & H2).
  set (s' := run_schedule n fx fy (one_after_the_other n) s) in *.
  unfold one_after_the_other in H1, H2.
  rewrite turns_app, !turns_replicate, Z2Nat.id in H1, H2 by lia.
  assert (Hj : joined s' = true).
  { apply (no_steps_left n fx fy); [exact Hinv' | lia | lia]. }
  exists k', s'.
  split; [exact (reach_trans _ _ _ _ _ _ Hreach _ _ Hk')|].
  split; [exact Hj|]. now apply joined_values.
Qed.

(** The benchmark whose interleavings are [run] gets from [init] to the
    join of its two threads, with [x = y = n] there: some interleaving
    does, and every interleaving, however far it has got, can be run on to
    the join. *)
Definition reaches_join (run : nat -> state -> state -> Prop) (init : state)
    (x y n : Z) : Prop :=
  (exists k s, run k init s /\ joined s = true /\
               load_int (mem s) x = n /\ load_int (mem s) y = n) /\
  (forall k s, run k init s ->
     exists k' s', run (k + k')%nat init s' /\ joined s' = true /\
                   load_int (mem s') x = n /\ load_int (mem s') y = n).

Lemma reaches_join_layout (sd : struct_def) (base n : Z) (m : memory) :
  sd = SharedDataFalseSharing_def \/ sd = SharedDataNoFalseSharing_def ->
  0 <= n <= INT_MAX ->
  reaches_join (reach_in n (field_addr sd base "x") (field_addr sd base "y"))
    (started (zero_object m base (struct_size sd)))
    (field_addr sd base "x") (field_addr sd base "y") n.
Proof.
  intros Hsd Hn. split.
  - destruct (runs_on_to_join sd base n m 0 _ Hsd Hn (reach_here _ _ _ _))
      as (k' & s' & Hreach & Hrest).
    exists (0 + k')%nat, s'. auto.
  - intros k s Hreach. now apply (runs_on_to_join sd base n m k s Hsd Hn).
Qed.

(** C1: in the shared-line and in the separated-lines program alike, the
    two threads get to their joins, and after both are joined [x] and [y]
    each hold exactly the iteration count, for every count an [int] can
    hold, 1,000,000,000 included: no increment is lost. However the steps
    of the threads interleave, the run can be continued to the join (while
    a thread is unfinished a step can be taken), the join is reached after
    exactly [4 n + 2] steps (a load and a store per increment, and the last
    loop test of each thread), and every joined state has [x = y = n]. *)
Theorem no_lost_updates (base n : Z) (m : memory) :
  0 <= n <= INT_MAX ->
  (reaches_join (runFalseSharingBenchmark_with n base) (started (dataFalse m base))
     (field_addr SharedDataFalseSharing_def base "x")
     (field_addr SharedDataFalseSharing_def base "y") n /\
   forall k s, runFalseSharingBenchmark_with n base k (started (dataFalse m base)) s ->
               counters_exact SharedDataFalseSharing_def base n k s) /\
  (reaches_join (runNoFalseSharingBenchmark_with n base) (started (dataNoFalse m base))
     (field_addr SharedDataNoFalseSharing_def base "x")
     (field_addr SharedDataNoFalseSharing_def base "y") n /\
   forall k s, runNoFalseSharingBenchmark_with n base k (started (dataNoFalse m base)) s ->
               counters_exact SharedDataNoFalseSharing_def base n k s) /\
  (reaches_join (runFalseSharingBenchmark base) (started (dataFalse m base))
     (field_addr SharedDataFalseSharing_def base "x")
     (field_addr SharedDataFalseSharing_def base "y") NUM_ITERATIONS /\
   forall k s, runFalseSharingBenchmark base k (started (dataFalse m base)) s ->
               counters_exact SharedDataFalseSharing_def base NUM_ITERATIONS k s) /\
  (reaches_join (runNoFalseSharingBenchmark base) (started (dataNoFalse m base))
     (field_addr SharedDataNoFalseSharing_def base "x")
     (field_addr SharedDataNoFalseSharing_def base "y") NUM_ITERATIONS /\
   forall k s, runNoFalseSharingBenchmark base k (started (dataNoFalse m base)) s ->
               counters_exact SharedDataNoFalseSharing_def base NUM_ITERATIONS k s).
Proof.
  intros Hn.
  assert (Hbillion : 0 <= NUM_ITERATIONS <= INT_MAX)
    by (unfold NUM_ITERATIONS, INT_MAX; lia).
  refine (conj (conj _ _) (conj (conj _ _) (conj (conj _ _) (conj _ _)))).
  - apply (reaches_join_layout SharedDataFalseSharing_def); [now left | exact Hn].
  - intros k s. apply counters_exact_layout; [now left | exact Hn].
  - apply (reaches_join_layout SharedDataNoFalseSharing_def); [now right | exact Hn].
  - intros k s. apply counters_exact_layout; [now right | exact Hn].
  - apply (reaches_join_layout SharedDataFalseSharing_def); [now left | exact Hbillion].
  - intros k s. apply counters_exact_layout; [now left | exact Hbillion].
  - apply (reaches_join_layout SharedDataNoFalseSharing_def); [now right | exact Hbillion].
  - intros k s. apply counters_exact_layout; [now right | exact Hbillion].
Qed.

Lemma no_lost_updates_witness :
  let shared := run_schedule 2 60 64 [T1; T2; T2; T1; T1; T2; T1; T2; T2; T1]
                  (started (dataFalse (fun _ => 0) 60)) in
  let separated := run_schedule 2 128 192 [T2; T1; T1; T2; T2; T1; T1; T2; T2; T1]
                     (started (dataNoFalse (fun _ => 9) 128)) in
  (load_int (mem shared) 60 = 2 /\ load_int (mem shared) 64 = 2) /\
  (load_int (mem separated) 128 = 2 /\ load_int (mem separated) 192 = 2) /\
  (exists k s, runFalseSharingBenchmark_with 2 60 k (started (dataFalse (fun _ => 0) 60)) s
               /\ joined s = true /\ load_int (mem s) 60 = 2 /\ load_int (mem s) 64 = 2) /\
  (exists k s, runNoFalseSharingBenchmark_with 2 128 k
                 (started (dataNoFalse (fun _ => 9) 128)) s
               /\ joined s = true /\ load_int (mem s) 128 = 2 /\ load_int (mem s) 192 = 2).
Proof.
  intros shared separated.
  destruct (run_schedule_reach 2 60 64 [T1; T2; T2; T1; T1; T2; T1; T2; T2; T1]
              (started (dataFalse (fun _ => 0) 60))) as [k1 Hk1].
  destruct (run_schedule_reach 2 128 192 [T2; T1; T1; T2; T2; T1; T1; T2; T2; T1]
              (started (dataNoFalse (fun _ => 9) 128))) as [k2 Hk2].
  destruct (no_lost_updates 60 2 (fun _ => 0) ltac:(unfold INT_MAX; lia))
    as ((HjoinF & HexactF) & _).
  destruct (no_lost_updates 128 2 (fun _ => 9) ltac:(unfold INT_MAX; lia))
    as (_ & (HjoinN & HexactN) & _).
  refine (conj _ (conj _ (conj (proj1 HjoinF) (proj1 HjoinN)))).
  - exact (proj1 (HexactF k1 shared Hk1) eq_refl).
  - exact (proj1 (HexactN k2 separated Hk2) eq_refl).
Defined.

End FalseSharing.

(* ===================================================================== *)
(** * The experiments side by side *)
(* ===================================================================== *)

Module Experiments.
Import CacheAlignment.


(** An element whose 16 fields all hold 1. *)
Definition ones : UnalignedStruct := {| u_data := replicate 16 1 |}.

(** ** What [runBenchmark] of the NUMA program does *)

Lemma runBenchmark_run data_size iterations memory region node label region' pf w :
  NumaAccess.access_loop memory data_size iterations region = Some region' ->
  NumaAccess.runBenchmark_with data_size iterations memory region node label pf w =
    let t0 := clock_now pf (clock_reads w) in
    let t1 := clock_now pf (S (clock_reads w)) in
    (Done region',
     {| trace := trace w ++ [EvRunOnNode node; EvClock t0; EvPattern label; EvClock t1;
                             EvOut label [VInt (duration_ms (t1 - t0))]];
        clock_reads := S (S (clock_reads w));
        alloc_calls := alloc_calls w |}).
Proof.
  intros Hloop.
  unfold NumaAccess.runBenchmark_with, pattern, now, emit, mbind, prog_bind, mret,
    prog_ret, raise.
  rewrite Hloop. simpl. rewrite <- !app_assoc. reflexivity.
Qed.

(** ** C8: what the access patterns return *)

(** C8, as stated, fails: on one element whose fields all hold 1,
    [benchmarkAccess] accumulates 1600 and prints it, and returns 3, the
    elapsed milliseconds. *)
Lemma benchmarkAccess_returns_duration :
  scan [ones] 1 0 = Some 1600 /\
  run (benchmarkAccess [ones] 1 "❌ Unaligned access") generous
  = (Done 3,
     [EvClock 0; EvPattern "❌ Unaligned access"; EvClock 3000000;
      EvOut "❌ Unaligned access" [VInt 3; VInt 1600]]) /\
  fst (run (benchmarkAccess [ones] 1 "❌ Unaligned access") generous) <> Done 1600.
Proof.
  assert (Hscan : scan [ones] 1 0 = Some 1600) by (vm_compute; reflexivity).
  assert (Hrun : run (benchmarkAccess [ones] 1 "❌ Unaligned access") generous
                 = (Done 3,
                    [EvClock 0; EvPattern "❌ Unaligned access"; EvClock 3000000;
                     EvOut "❌ Unaligned access" [VInt 3; VInt 1600]])).
  { unfold run. rewrite (benchmarkAccess_run [ones] 1 _ 1600) by exact Hscan. reflexivity. }
  refine (conj Hscan (conj Hrun _)). rewrite Hrun. discriminate.
Qed.

(** C8, amended: [benchmarkAccess] adds every read to its accumulator
    (which ends as the 64-bit reduction of [NUM_ITERATIONS] times the sum of
    all fields), prints the accumulator, and returns the elapsed
    milliseconds; [runBenchmark] of the NUMA program returns nothing and
    has no accumulator: it increments the bytes in place (each byte, modulo
    256, once per iteration that falls on it) and prints the elapsed
    milliseconds only. *)
Theorem patterns_print_not_return {T} `{Element T} (arr : list T) (count : Z) (label : string)
    (data_size : Z) (iterations : nat) (memory : Z) (region : list Z) (node : Z)
    (pf : platform) (w : world) :
  length arr = Z.to_nat count -> Forall well_typed arr ->
  memory <> 0 -> 0 < data_size -> Z.of_nat (length region) = data_size ->
  Forall (fun b => 0 <= b < 256) region ->
  let t0 := clock_now pf (clock_reads w) in
  let t1 := clock_now pf (S (clock_reads w)) in
  let d := duration_ms (t1 - t0) in
  let sum := wrap64 (Z.of_nat NUM_ITERATIONS * total arr) in
  scan arr (Z.to_nat count) 0 = Some sum /\
  fst (benchmarkAccess arr count label pf w) = Done d /\
  trace (snd (benchmarkAccess arr count label pf w))
  = trace w ++ [EvClock t0; EvPattern label; EvClock t1; EvOut label [VInt d; VInt sum]] /\
  exists region',
    NumaAccess.access_loop memory data_size iterations region = Some region' /\
    length region' = length region /\
    (forall (k : nat) b, region !! k = Some b ->
       region' !! k
       = Some (wrap8 (b + NumaAccess.visits data_size iterations (Z.of_nat k)))) /\
    fst (NumaAccess.runBenchmark_with data_size iterations memory region node label pf w)
    = Done region' /\
    trace (snd (NumaAccess.runBenchmark_with data_size iterations memory region node label pf w))
    = trace w ++ [EvRunOnNode node; EvClock t0; EvPattern label; EvClock t1;
                  EvOut label [VInt d]].
Proof.
  intros Hlen Hwt Hmem Hpos Hregion Hbytes t0 t1 d sum.
  assert (Hscan : scan arr (Z.to_nat count) 0 = Some sum).
  { rewrite (scan_value arr (Z.to_nat count) 0 Hlen (well_typed_lengths _ Hwt)).
    - now rewrite Z.add_0_l.
    - unfold is_llong, LLONG_MIN, LLONG_MAX. lia. }
  split; [exact Hscan|].
  rewrite (benchmarkAccess_run arr count label sum pf w Hscan).
  split; [reflexivity|]. split; [reflexivity|].
  destruct (NumaAccess.access_loop_adds memory data_size iterations region
              Hmem Hpos Hregion Hbytes) as (region' & Hloop & Hlen' & Hvals).
  exists region'. split; [exact Hloop|]. split; [exact Hlen'|]. split; [exact Hvals|].
  rewrite (runBenchmark_run _ _ _ _ node label region' pf w Hloop).
  split; reflexivity.
Qed.

Lemma patterns_print_not_return_witness :
  (fst (benchmarkAccess [ones] 1 "❌ Unaligned access" generous world0) = Done 3 /\
   trace (snd (benchmarkAccess [ones] 1 "❌ Unaligned access" generous world0))
   = [EvClock 0; EvPattern "❌ Unaligned access"; EvClock 3000000;
      EvOut "❌ Unaligned access" [VInt 3; VInt 1600]]) /\
  exists region',
    NumaAccess.access_loop 4096 4 7 [0; 10; 255; 3] = Some region' /\
    region' !! 0%nat = Some 2 /\ region' !! 1%nat = Some 12 /\
    region' !! 2%nat = Some 1 /\ region' !! 3%nat = Some 4 /\
    fst (NumaAccess.runBenchmark_with 4 7 4096 [0; 10; 255; 3] 0
           "✅ Local access (Node 0)" generous world0) = Done region' /\
    trace (snd (NumaAccess.runBenchmark_with 4 7 4096 [0; 10; 255; 3] 0
                  "✅ Local access (Node 0)" generous world0))
    = [EvRunOnNode 0; EvClock 0; EvPattern "✅ Local access (Node 0)"; EvClock 3000000;
       EvOut "✅ Local access (Node 0)" [VInt 3]].
Proof.
  destruct (patterns_print_not_return [ones] 1 "✅ Local access (Node 0)" 4 7 4096
              [0; 10; 255; 3] 0 generous world0)
    as (_ & _ & _ & region' & Hloop & _ & Hvals & Hret' & Htrace').
  - reflexivity.
  - repeat constructor; unfold INT_MIN, INT_MAX; lia.
  - discriminate.
  - lia.
  - reflexivity.
  - repeat constructor; lia.
  - destruct (patterns_print_not_return [ones] 1 "❌ Unaligned access" 4 7 4096
                [0; 10; 255; 3] 0 generous world0)
      as (_ & Hret & Htrace & _).
    + reflexivity.
    + repeat constructor; unfold INT_MIN, INT_MAX; lia.
    + discriminate.
    + lia.
    + reflexivity.
    + repeat constructor; lia.
    + split; [split; [exact Hret | exact Htrace]|].
      exists region'. split; [exact Hloop|].
      split; [exact (Hvals 0%nat 0 eq_refl)|].
      split; [exact (Hvals 1%nat 10 eq_refl)|].
      split; [exact (Hvals 2%nat 255 eq_refl)|].
      split; [exact (Hvals 3%nat 3 eq_refl)|].
      split; [exact Hret' | exact Htrace'].
Defined.

(** ** C5: where the stopwatch sits *)




(** ** C6: what a failed acquisition does *)




(** ** What the programs give back *)




(** ** The NUMA program as a whole *)








End Experiments.
